(** * One-time passcode store (otpStore.js): shallow embedding and properties

    The store of [createOtpStore] is a JavaScript [Map] from integer passcodes
    to objects [{ expiresAt, used }].  It is embedded as a [gmap Z entry]; the
    two public operations [issue] and [useOnce] and the private sweep
    [purgeExpired] become functions that take the store and return the new
    store (and the boolean the JavaScript function returns).

    Every call of [Date.now()] is an explicit argument: an operation that reads
    the clock several times receives one reading per read, so that statements
    can say which reading they are about.  *)

From stdpp Require Import gmap list fin_maps strings pretty.
From Stdlib Require Import ZArith Lia.

Local Open Scope Z_scope.

(** ** JavaScript numbers and the values passed as [durationMs]

    Timestamps and durations are millisecond counts.  Finite numbers are
    modelled as integers ([Fin z]), which is exact for the doubles the program
    handles as long as they are whole and below 2^53 in magnitude; the three
    non-finite doubles are kept apart because the coercions of [issue]
    distinguish them. *)

Inductive jsnum : Type :=
  | NaN
  | NegInf
  | PosInf
  | Fin (z : Z).

(** The argument [durationMs] before coercion.  Any value whose [Number(...)]
    is not a number (a missing argument, a non-numeric string, an object)
    behaves as [JUndefined] does. *)
Inductive jsval : Type :=
  | JUndefined
  | JNull
  | JBool (b : bool)
  | JNum (n : jsnum).

#[global] Instance jsnum_eq_dec : EqDecision jsnum.
Proof. solve_decision. Defined.

#[global] Instance jsval_eq_dec : EqDecision jsval.
Proof. solve_decision. Defined.

(** [Number(v)], for the values it converts; those on which it throws are
    no [jsval] (see [duration_arg] and [issue_call]). *)
Definition Number (v : jsval) : jsnum :=
  match v with
  | JUndefined => NaN
  | JNull => Fin 0
  | JBool true => Fin 1
  | JBool false => Fin 0
  | JNum n => n
  end.

(** Truthiness of a number: [NaN] and zero are falsy. *)
Definition truthy (n : jsnum) : bool :=
  match n with
  | NaN => false
  | Fin z => negb (z =? 0)
  | NegInf | PosInf => true
  end.

(** [a || b] on numbers *)
Definition js_or (a b : jsnum) : jsnum := if truthy a then a else b.

(** [a <= b]: false as soon as one side is [NaN]. *)
Definition js_le (a b : jsnum) : bool :=
  match a, b with
  | NaN, _ | _, NaN => false
  | NegInf, _ => true
  | _, PosInf => true
  | Fin x, Fin y => x <=? y
  | _, _ => false
  end.

(** [a > b]: false as soon as one side is [NaN]. *)
Definition js_gt (a b : jsnum) : bool :=
  match a, b with
  | NaN, _ | _, NaN => false
  | NegInf, _ => false
  | _, PosInf => false
  | Fin x, Fin y => y <? x
  | _, _ => true
  end.

(** [Math.min(a, b)] *)
Definition js_min (a b : jsnum) : jsnum :=
  match a, b with
  | NaN, _ | _, NaN => NaN
  | _, _ => if js_le a b then a else b
  end.

(** [a + b] *)
Definition js_add (a b : jsnum) : jsnum :=
  match a, b with
  | NaN, _ | _, NaN => NaN
  | PosInf, NegInf | NegInf, PosInf => NaN
  | PosInf, _ | _, PosInf => PosInf
  | NegInf, _ | _, NegInf => NegInf
  | Fin x, Fin y => Fin (x + y)
  end.

(** ** The store *)

(** [{ expiresAt: number, used: boolean }] *)
Record entry : Type := Entry { expiresAt : jsnum; used : bool }.

#[global] Instance entry_eq_dec : EqDecision entry.
Proof. solve_decision. Defined.

(** [const MAX_MS = 5 * 60 * 1000;] *)
Definition MAX_MS : Z := 5 * 60 * 1000.

(** The test of the sweep, [value.expiresAt <= now || value.used]. *)
Definition stale (now : Z) (value : entry) : bool :=
  js_le (expiresAt value) (Fin now) || used value.

(** One turn of the loop [for (const [key, value] of store)] of the sweep. *)
Definition purge_step (now : Z) (store : gmap Z entry) (kv : Z * entry)
  : gmap Z entry :=
  if stale now kv.2 then delete kv.1 store else store.

(** The loop of the sweep over the entries [visits], in that order.  Deleting
    the entry under the cursor does not disturb the iteration of a [Map], so
    the loop sees exactly the entries the store had when it started. *)
Definition purge_visit (now : Z) (visits : list (Z * entry))
    (store : gmap Z entry) : gmap Z entry :=
  foldl (purge_step now) store visits.

(** [purgeExpired], with [now] the reading of [Date.now()] it takes. *)
Definition purgeExpired (now : Z) (store : gmap Z entry) : gmap Z entry :=
  purge_visit now (map_to_list store) store.

(** [Math.min(Number(durationMs) || 0, MAX_MS)] *)
Definition cappedDuration (durationMs : jsval) : jsnum :=
  js_min (js_or (Number durationMs) (Fin 0)) (Fin MAX_MS).

(** [issue(passcode, durationMs)].  [t_sweep] is the clock reading taken inside
    [purgeExpired], [t_now] the one taken by [issue] itself. *)
Definition issue (t_sweep t_now : Z) (passcode : Z) (durationMs : jsval)
    (store : gmap Z entry) : bool * gmap Z entry :=
  let store := purgeExpired t_sweep store in
  let capped := cappedDuration durationMs in
  let now := t_now in
  let existingEntry := store !! passcode in
  let existedAndUnexpired :=
    match existingEntry with
    | Some e => js_gt (expiresAt e) (Fin now) && negb (used e)
    | None => false
    end in
  (existedAndUnexpired,
   <[passcode := {| expiresAt := js_add (Fin now) capped; used := false |}]>
     store).

(** [useOnce(passcode)].  [t_sweep] is read by the first sweep, [t_now] by
    [useOnce] itself (only when an entry is found) and [t_resweep] by the
    trailing sweep (only when the passcode is accepted).  The assignment
    [entry.used = true] changes the object held by the store; the [set] that
    follows stores the same object again. *)
Definition useOnce (t_sweep t_now t_resweep : Z) (passcode : Z)
    (store : gmap Z entry) : bool * gmap Z entry :=
  let store := purgeExpired t_sweep store in
  match store !! passcode with
  | None => (false, store)
  | Some e =>
      let now := t_now in
      if js_le (expiresAt e) (Fin now) || used e
      then (false, delete passcode store)
      else
        let e := {| expiresAt := expiresAt e; used := true |} in
        let store := <[passcode := e]> store in
        (true, purgeExpired t_resweep store)
  end.

(** The second, compact version of the store found later in the same file. *)
Module Compact.

Definition MAX_MS : Z := 5 * 60 * 1000.

Definition purgeExpired (now : Z) (store : gmap Z entry) : gmap Z entry :=
  foldl (fun st (kv : Z * entry) =>
           if js_le (expiresAt kv.2) (Fin now) || used kv.2
           then delete kv.1 st else st)
        store (map_to_list store).

Definition issue (t_sweep t_now : Z) (passcode : Z) (durationMs : jsval)
    (store : gmap Z entry) : bool * gmap Z entry :=
  let store := purgeExpired t_sweep store in
  let capped := js_min (js_or (Number durationMs) (Fin 0)) (Fin MAX_MS) in
  let now := t_now in
  let existedAndUnexpired :=
    match store !! passcode with Some _ => true | None => false end in
  (existedAndUnexpired,
   <[passcode := {| expiresAt := js_add (Fin now) capped; used := false |}]>
     store).

Definition useOnce (t_sweep t_now t_resweep : Z) (passcode : Z)
    (store : gmap Z entry) : bool * gmap Z entry :=
  let store := purgeExpired t_sweep store in
  match store !! passcode with
  | None => (false, store)
  | Some e =>
      let now := t_now in
      if js_le (expiresAt e) (Fin now) || used e
      then (false, delete passcode store)
      else
        let e := {| expiresAt := expiresAt e; used := true |} in
        let store := <[passcode := e]> store in
        (true, purgeExpired t_resweep store)
  end.

End Compact.

(** ** Arguments on which [Number] throws *)

(** What a caller may pass as [durationMs]: a value [Number] converts (a
    [jsval]), or one on which [Number] throws a [TypeError] (a Symbol, an
    object whose conversion throws). *)
Inductive duration_arg : Type :=
  | Converts (v : jsval)
  | Throws.

(** [issue(passcode, durationMs)] for any argument.  When [Number] throws,
    the sweep has run, the clock has not been read again, nothing is written
    and no boolean is returned ([None]). *)
Definition issue_call (t_sweep t_now : Z) (passcode : Z)
    (durationMs : duration_arg) (store : gmap Z entry)
  : option bool * gmap Z entry :=
  match durationMs with
  | Converts v =>
      let '(existed, store) := issue t_sweep t_now passcode v store in
      (Some existed, store)
  | Throws => (None, purgeExpired t_sweep store)
  end.

(** ** Calls and runs *)

(** A call of the public interface. *)
Inductive request : Type :=
  | Issue (passcode : Z) (durationMs : jsval)
  | UseOnce (passcode : Z).

#[global] Instance request_eq_dec : EqDecision request.
Proof. solve_decision. Defined.

(** The clock readings one call may take, in the order it takes them. *)
Record readings : Type :=
  Readings { at_sweep : Z; at_now : Z; at_resweep : Z }.

(** A call during which the clock does not advance. *)
Definition fixed_clock (now : Z) : readings := Readings now now now.

Definition exec (r : request) (ts : readings) (store : gmap Z entry)
  : bool * gmap Z entry :=
  match r with
  | Issue passcode durationMs =>
      issue (at_sweep ts) (at_now ts) passcode durationMs store
  | UseOnce passcode =>
      useOnce (at_sweep ts) (at_now ts) (at_resweep ts) passcode store
  end.

Definition exec_compact (r : request) (ts : readings) (store : gmap Z entry)
  : bool * gmap Z entry :=
  match r with
  | Issue passcode durationMs =>
      Compact.issue (at_sweep ts) (at_now ts) passcode durationMs store
  | UseOnce passcode =>
      Compact.useOnce (at_sweep ts) (at_now ts) (at_resweep ts) passcode store
  end.

(** A sequence of calls on one store: the booleans returned, in order, and the
    store left at the end. *)
Fixpoint run_with (step : request -> readings -> gmap Z entry -> bool * gmap Z entry)
    (calls : list (request * readings)) (store : gmap Z entry)
  : list bool * gmap Z entry :=
  match calls with
  | [] => ([], store)
  | (r, ts) :: rest =>
      let '(b, store) := step r ts store in
      let '(bs, store) := run_with step rest store in
      (b :: bs, store)
  end.

Definition run := run_with exec.
Definition run_compact := run_with exec_compact.

(** Calls given with one timestamp each: the whole call sees that time. *)
Definition stamped (calls : list (request * Z)) : list (request * readings) :=
  map (fun c => (c.1, fixed_clock c.2)) calls.

(** Stores the program can be in: the empty store of [createOtpStore], and
    whatever a call leaves, whenever it is made and whatever its arguments. *)
Inductive reachable : gmap Z entry -> Prop :=
  | reach_new : reachable ∅
  | reach_call r ts store :
      reachable store -> reachable (exec r ts store).2.

(** The passcode a call is about. *)
Definition code_of (r : request) : Z :=
  match r with
  | Issue passcode _ => passcode
  | UseOnce passcode => passcode
  end.

(** Is this call an [issue] of passcode [c]? *)
Definition issues (c : Z) (call : request * readings) : bool :=
  match call.1 with
  | Issue p _ => bool_decide (p = c)
  | UseOnce _ => false
  end.

(** Is this call, with the boolean it returned, an accepted [useOnce(c)]? *)
Definition accepted (c : Z) (cb : (request * readings) * bool) : bool :=
  match cb.1.1 with
  | UseOnce p => bool_decide (p = c) && cb.2
  | Issue _ _ => false
  end.

(** How many [useOnce(c)] calls of the sequence return [true]. *)
Definition accepts (c : Z) (calls : list (request * readings))
    (store : gmap Z entry) : nat :=
  length (filter (fun cb => accepted c cb = true)
                 (zip calls (run calls store).1)).

(** ** Predicates of the specification *)

(** A live entry at time [now]: unexpired, with [expiresAt] strictly greater
    than [now], and unconsumed. *)
Definition live (now : Z) (e : entry) : bool :=
  js_gt (expiresAt e) (Fin now) && negb (used e).

(** No entry carries [NaN] as its expiry time.  [issue] is the only writer of
    [expiresAt] and never writes [NaN] (see [store_ok_exec]). *)
Definition store_ok (store : gmap Z entry) : Prop :=
  map_Forall (fun (_ : Z) e => expiresAt e <> NaN) store.

(** A visiting order of a store: a list holding exactly its entries. *)
Definition visits_of (store : gmap Z entry) (visits : list (Z * entry)) : Prop :=
  forall k v, (k, v) ∈ visits <-> store !! k = Some v.

(** The duration interval of the specification, [[0, MAX_DURATION]]. *)
Definition in_cap_range (n : jsnum) : bool :=
  js_le (Fin 0) n && js_le n (Fin MAX_MS).

(** ** Sample data *)

(** A store holding one live entry, one expired at time 10 and one consumed. *)
Definition sample_store : gmap Z entry :=
  <[1 := Entry (Fin 50) false]>
    (<[2 := Entry (Fin 5) false]>
       (<[3 := Entry (Fin 50) true]> ∅)).

(** The entries of [sample_store], in an order of our choosing. *)
Definition sample_visits : list (Z * entry) :=
  [(3, Entry (Fin 50) true); (1, Entry (Fin 50) false); (2, Entry (Fin 5) false)].

(** The store after [issue(2, -5)] and [issue(1, 40)], both made at time 10
    on a new store. *)
Definition issued_store : gmap Z entry :=
  (exec (Issue 1 (JNum (Fin 40))) (fixed_clock 10)
     (exec (Issue 2 (JNum (Fin (-5)))) (fixed_clock 10) ∅).2).2.

(** The calls of the self-test at the end of otpStore.js, one millisecond
    apart. *)
Definition self_test : list (request * Z) :=
  [(Issue 123456 (JNum (Fin (10 * 60 * 1000))), 1000);
   (Issue 123456 (JNum (Fin 30000)), 1001);
   (UseOnce 123456, 1002);
   (UseOnce 123456, 1003);
   (Issue 999888 (JNum (Fin (10 * 60 * 1000))), 1004);
   (UseOnce 999999, 1005)].

(** The self-test that otpStore.js runs when started directly.  [tsN] holds
    the clock readings of its N-th call of the store; the test passes when
    every entry of [testResults] has [pass] set. *)
Definition selfTest (ts1 ts2 ts3 ts4 ts5 ts6 : readings) : bool :=
  let otp : gmap Z entry := ∅ in
  let '(issuedNew, otp) :=
    issue (at_sweep ts1) (at_now ts1) 123456 (JNum (Fin (10 * 60 * 1000))) otp in
  let '(reissued, otp) :=
    issue (at_sweep ts2) (at_now ts2) 123456 (JNum (Fin 30000)) otp in
  let '(firstUse, otp) :=
    useOnce (at_sweep ts3) (at_now ts3) (at_resweep ts3) 123456 otp in
  let '(secondUse, otp) :=
    useOnce (at_sweep ts4) (at_now ts4) (at_resweep ts4) 123456 otp in
  let '(excessiveDuration, otp) :=
    issue (at_sweep ts5) (at_now ts5) 999888 (JNum (Fin (10 * 60 * 1000))) otp in
  let '(invalidUse, otp) :=
    useOnce (at_sweep ts6) (at_now ts6) (at_resweep ts6) 999999 otp in
  let testResults :=
    [Bool.eqb issuedNew false; Bool.eqb reissued true; Bool.eqb firstUse true;
     Bool.eqb secondUse false; Bool.eqb excessiveDuration false;
     Bool.eqb invalidUse false] in
  forallb (fun pass => pass) testResults.

(** The shorter self-test of the compact version, with its own [allPassed]. *)
Definition selfTest_compact (ts1 ts2 ts3 ts4 : readings) : bool :=
  let otp : gmap Z entry := ∅ in
  let '(issuedNew, otp) :=
    Compact.issue (at_sweep ts1) (at_now ts1) 123456
      (JNum (Fin (10 * 60 * 1000))) otp in
  let '(reissued, otp) :=
    Compact.issue (at_sweep ts2) (at_now ts2) 123456 (JNum (Fin 30000)) otp in
  let '(firstUse, otp) :=
    Compact.useOnce (at_sweep ts3) (at_now ts3) (at_resweep ts3) 123456 otp in
  let '(secondUse, otp) :=
    Compact.useOnce (at_sweep ts4) (at_now ts4) (at_resweep ts4) 123456 otp in
  Bool.eqb issuedNew false && Bool.eqb reissued true
  && Bool.eqb firstUse true && Bool.eqb secondUse false.

(** ** The page script

    The part of the file that wires the browser page to the store.  Of it are
    embedded the two formatting functions, the status log of [updateStatus]
    and what [handleIssueOTP] does to the store and to the status log.  Its
    DOM rendering, its mirror map [activeOTPs] and the timers that maintain
    that map are not. *)

(** [Number.MAX_SAFE_INTEGER]: up to it, whole numbers are doubles and the
    divisions of [formatDuration], which the code makes on doubles, floor to
    the exact quotients used here. *)
Definition MAX_SAFE_INTEGER : Z := 2 ^ 53 - 1.

(** [Math.floor(n / k)] for a positive whole [k]: the exact quotient, rounded
    down.  The code floors the quotient of two doubles, which is the same
    number for [k] = 1000 or 60000 and a whole [n] up to [MAX_SAFE_INTEGER]
    in magnitude, and may be one more above that. *)
Definition js_floor_div (n : jsnum) (k : Z) : jsnum :=
  match n with
  | Fin z => Fin (z / k)
  | _ => n
  end.

(** [n % k] for a positive whole [k]: the remainder has the sign of [n] (a
    zero remainder of a negative [n], which JavaScript signs, is plain 0
    here), and no infinity has one. *)
Definition js_rem (n : jsnum) (k : Z) : jsnum :=
  match n with
  | Fin z => Fin (Z.rem z k)
  | _ => NaN
  end.

(** A number inside a template literal.  Whole numbers print in decimal, as
    JavaScript prints them below 10^21 (from there on it uses the exponent
    form, which this function does not). *)
Definition js_show (n : jsnum) : string :=
  match n with
  | NaN => "NaN"
  | PosInf => "Infinity"
  | NegInf => "-Infinity"
  | Fin z => pretty z
  end.

(** [formatDuration(ms)] *)
Definition formatDuration (ms : jsnum) : string :=
  if js_le (Fin 60000) ms then
    let minutes := js_floor_div ms 60000 in
    let seconds := js_floor_div (js_rem ms 60000) 1000 in
    if js_gt seconds (Fin 0)
    then js_show minutes +:+ "m " +:+ js_show seconds +:+ "s"
    else js_show minutes +:+ "m"
  else
    let seconds := js_floor_div ms 1000 in
    js_show seconds +:+ "s".

(** [formatTimeRemaining(ms)] *)
Definition formatTimeRemaining (ms : jsnum) : string :=
  if js_le ms (Fin 0) then "0s" else formatDuration ms.

(** A decimal digit. *)
Definition is_digit (c : Ascii.ascii) : bool :=
  match Ascii.is_nat c with
  | Some _ => true
  | None => false
  end.

(** A string of decimal digits. *)
Fixpoint digits_only (s : string) : bool :=
  match s with
  | EmptyString => true
  | String c rest => is_digit c && digits_only rest
  end.

(** One line of the status log: the parts [updateStatus] puts into the
    markup of the new child of [statusContent]. *)
Record status_item : Type :=
  StatusItem {
      item_icon : string;
      item_textClass : string;
      item_message : string;
      item_time : string
    }.

(** The [switch (type)] of [updateStatus]: icon and text class. *)
Definition status_style (type : string) : string * string :=
  if decide (type = "success") then ("fas fa-check-circle", "text-success")
  else if decide (type = "warning")
       then ("fas fa-exclamation-triangle", "text-warning")
  else if decide (type = "error") then ("fas fa-times-circle", "text-danger")
  else ("fas fa-info-circle", "").

(** The loop [while (statusContent.children.length > 5)
    statusContent.removeChild(statusContent.firstChild)]. *)
Fixpoint keep_last_five (children : list status_item) : list status_item :=
  match children with
  | [] => []
  | _ :: rest =>
      if (5 <? length children)%nat then keep_last_five rest else children
  end.

(** [updateStatus(message, type)] on the children of [statusContent]; [time]
    is what [new Date().toLocaleTimeString()] gives. *)
Definition updateStatus (message type time : string)
    (children : list status_item) : list status_item :=
  let '(icon, textClass) := status_style type in
  let statusItem := StatusItem icon textClass message time in
  keep_last_five (children ++ [statusItem]).

(** The toast [showToast(message, title, type)] puts on the page. *)
Record toast : Type :=
  Toast { toast_message : string; toast_title : string; toast_type : string }.

(** The duration field of the issue form: the custom input when the select
    reads [custom], the value of the chosen option otherwise; either way
    what [parseInt] makes of the text. *)
Inductive duration_choice : Type :=
  | CustomDuration (customDuration : jsnum)
  | PresetDuration (durationValue : jsnum).

(** What the handlers of the page change: the store and the status log. *)
Record page : Type :=
  Page { page_otpStore : gmap Z entry; page_status : list status_item }.

(** [handleIssueOTP()], for [passcode] the number [parseInt] made of the
    passcode field.  A passcode that passes the first guard is finite, so the
    last case of the inner [match] is never taken (see
    [handleIssueOTP_gate]); it shows the toast of the [catch] clause. *)
Definition handleIssueOTP (passcode : jsnum) (choice : duration_choice)
    (t_sweep t_now : Z) (time : string) (pg : page) : toast * page :=
  if negb (truthy passcode) || js_gt (Fin 100000) passcode
     || js_gt passcode (Fin 99999999)
  then (Toast "Please enter a valid 6-8 digit passcode" "Invalid Input" "error",
        pg)
  else
    let checked :=
      match choice with
      | CustomDuration duration =>
          if negb (truthy duration) || js_gt (Fin 1000) duration
             || js_gt duration (Fin 300000)
          then None else Some duration
      | PresetDuration duration => Some duration
      end in
    match checked, passcode with
    | None, _ =>
        (Toast "Custom duration must be between 1,000ms and 300,000ms (5 minutes)"
               "Invalid Duration" "error",
         pg)
    | Some duration, Fin code =>
        let '(wasExisting, otpStore) :=
          issue t_sweep t_now code (JNum duration) (page_otpStore pg) in
        let message :=
          if wasExisting
          then "OTP " +:+ js_show passcode +:+ " duration updated to "
               +:+ formatDuration duration
          else "New OTP " +:+ js_show passcode +:+ " issued for "
               +:+ formatDuration duration in
        let status :=
          updateStatus
            ((if wasExisting then "Updated" else "Issued") +:+ " OTP: "
             +:+ js_show passcode)
            "success" time (page_status pg) in
        (Toast message "OTP Issued" "success", Page otpStore status)
    | Some _, _ => (Toast "Failed to issue OTP" "Error" "error", pg)
    end.

(** ** The self-test *)

(** The embedding returns what the self-test expects, in both versions. *)
Example self_test_results :
  (run (stamped self_test) ∅).1 = [false; true; true; false; false; false]
  /\ (run_compact (stamped self_test) ∅).1
     = [false; true; true; false; false; false].
Proof. split; reflexivity. Qed.

(** ** JavaScript comparisons *)

Section numbers.

Lemma js_gt_not_le a b : js_gt a b = true -> js_le a b = false.
Proof. destruct a, b; simpl; try done. intros H. apply Z.leb_gt. lia. Qed.

Lemma js_not_le_gt a b : a <> NaN -> js_le a (Fin b) = false -> js_gt a (Fin b) = true.
Proof.
  destruct a; simpl; try done. intros _ H. apply Z.ltb_lt.
  apply Z.leb_gt in H. lia.
Qed.

Lemma js_gt_mono a t u : t <= u -> js_gt a (Fin u) = true -> js_gt a (Fin t) = true.
Proof.
  destruct a; simpl; try done. intros Htu H. apply Z.ltb_lt.
  apply Z.ltb_lt in H. lia.
Qed.

Lemma js_le_mono a t u : t <= u -> js_le a (Fin t) = true -> js_le a (Fin u) = true.
Proof.
  destruct a; simpl; try done. intros Htu H. apply Z.leb_le.
  apply Z.leb_le in H. lia.
Qed.

(** The duration [issue] adds to the clock is a finite number or minus
    infinity, never above the cap. *)
Lemma cappedDuration_cases d :
  cappedDuration d = NegInf \/
  exists w, cappedDuration d = Fin w /\ w <= MAX_MS.
Proof.
  unfold cappedDuration, js_or.
  destruct (Number d) as [| | |z]; simpl.
  - right. exists 0. split; [done | unfold MAX_MS; lia].
  - by left.
  - right. exists MAX_MS. split; [done | lia].
  - right. destruct (z =? 0) eqn:Hz; simpl.
    + exists 0. split; [done | unfold MAX_MS; lia].
    + destruct (z <=? MAX_MS) eqn:Hle.
      * exists z. split; [done | by apply Z.leb_le].
      * exists MAX_MS. split; [done | lia].
Qed.

Lemma issued_expiry_not_NaN now d : js_add (Fin now) (cappedDuration d) <> NaN.
Proof.
  destruct (cappedDuration_cases d) as [-> | (w & -> & _)]; simpl; done.
Qed.

End numbers.

(** ** The sweep *)

Section sweep.

Implicit Types (store : gmap Z entry) (visits : list (Z * entry)).

Lemma purge_visit_hit now visits store k v :
  (k, v) ∈ visits -> stale now v = true ->
  purge_visit now visits store !! k = None.
Proof.
  unfold purge_visit.
  assert (Hkeep : forall l st, st !! k = None ->
                               foldl (purge_step now) st l !! k = None).
  { induction l as [|[k' v'] l IH]; intros st Hst; simpl; [done |].
    apply IH. unfold purge_step; simpl.
    destruct (stale now v'); [| done].
    destruct (decide (k' = k)) as [-> | Hne].
    - apply lookup_delete_eq.
    - by rewrite lookup_delete_ne. }
  revert store. induction visits as [|[k' v'] visits IH]; intros store Hin Hst.
  - by apply elem_of_nil in Hin.
  - simpl. apply elem_of_cons in Hin as [Heq | Hin].
    + inversion Heq; subst k' v'. apply Hkeep.
      unfold purge_step; simpl. rewrite Hst. apply lookup_delete_eq.
    + by apply IH.
Qed.

Lemma purge_visit_miss now visits store k :
  (forall v, (k, v) ∈ visits -> stale now v = false) ->
  purge_visit now visits store !! k = store !! k.
Proof.
  unfold purge_visit. revert store.
  induction visits as [|[k' v'] visits IH]; intros store Hall; simpl; [done |].
  rewrite IH.
  - unfold purge_step; simpl. destruct (stale now v') eqn:Hst; [| done].
    destruct (decide (k' = k)) as [-> | Hne].
    + rewrite (Hall v') in Hst; [done | apply elem_of_cons; by left].
    + by rewrite lookup_delete_ne.
  - intros v Hin. apply Hall. apply elem_of_cons. by right.
Qed.

Lemma visits_of_map_to_list store : visits_of store (map_to_list store).
Proof. intros k v. apply elem_of_map_to_list. Qed.

Lemma visits_of_Permutation store visits :
  visits ≡ₚ map_to_list store -> visits_of store visits.
Proof. intros HP k v. rewrite HP. apply elem_of_map_to_list. Qed.

(** Whatever the order of the visit, the loop keeps an entry exactly when
    the test of the sweep is false on it. *)
Lemma purge_visit_filter now visits store :
  visits_of store visits ->
  purge_visit now visits store =
  filter (fun kv : Z * entry => stale now kv.2 = false) store.
Proof.
  intros Hv. apply map_eq; intros k. apply option_eq; intros e.
  rewrite map_lookup_filter_Some; simpl.
  destruct (store !! k) as [v|] eqn:Hk.
  - destruct (stale now v) eqn:Hst.
    + rewrite (purge_visit_hit now visits store k v); [| by apply Hv | done].
      split; [done |]. intros [Heq Hf]. inversion Heq; subst. congruence.
    + rewrite purge_visit_miss.
      * rewrite Hk. split; [| tauto]. intros Heq; inversion Heq; by subst.
      * intros v' Hin. apply Hv in Hin. congruence.
  - rewrite purge_visit_miss.
    + rewrite Hk. split; [done | tauto].
    + intros v' Hin. apply Hv in Hin. congruence.
Qed.

Lemma purgeExpired_filter now store :
  purgeExpired now store =
  filter (fun kv : Z * entry => stale now kv.2 = false) store.
Proof. apply purge_visit_filter, visits_of_map_to_list. Qed.

Lemma purgeExpired_Some now store k e :
  purgeExpired now store !! k = Some e <->
  store !! k = Some e /\ stale now e = false.
Proof. rewrite purgeExpired_filter. apply map_lookup_filter_Some. Qed.

Lemma purgeExpired_None now store k :
  purgeExpired now store !! k = None <->
  (forall e, store !! k = Some e -> stale now e = true).
Proof.
  rewrite purgeExpired_filter, map_lookup_filter_None. simpl. split.
  - intros [Hn | Hall] e He; [congruence |].
    specialize (Hall e He). by destruct (stale now e).
  - intros Hall. destruct (store !! k) as [e|] eqn:He; [right | by left].
    intros x Hx. inversion Hx; subst. by rewrite (Hall x).
Qed.

Lemma purgeExpired_absent now store k :
  store !! k = None -> purgeExpired now store !! k = None.
Proof. intros Hk. apply purgeExpired_None. intros e He. congruence. Qed.

Lemma purgeExpired_idem now store :
  purgeExpired now (purgeExpired now store) = purgeExpired now store.
Proof.
  apply map_eq; intros k. apply option_eq; intros e.
  rewrite !purgeExpired_Some. tauto.
Qed.

Lemma Compact_purgeExpired_eq now store :
  Compact.purgeExpired now store = purgeExpired now store.
Proof. reflexivity. Qed.

Lemma stale_live now e : live now e = true -> stale now e = false.
Proof.
  unfold live, stale. intros [Hgt Hu]%andb_prop.
  rewrite (js_gt_not_le _ _ Hgt). by destruct (used e).
Qed.

Lemma live_not_stale now e :
  expiresAt e <> NaN -> stale now e = false -> live now e = true.
Proof.
  unfold live, stale. intros Hn [Hle Hu]%orb_false_elim.
  rewrite (js_not_le_gt _ _ Hn Hle), Hu. done.
Qed.

Lemma live_mono t u e : t <= u -> live u e = true -> live t e = true.
Proof.
  unfold live. intros Htu [Hgt Hu]%andb_prop.
  rewrite (js_gt_mono _ _ _ Htu Hgt), Hu. done.
Qed.

Lemma stale_mono t u e : t <= u -> stale t e = true -> stale u e = true.
Proof.
  unfold stale. intros Htu [Hle | Hu]%orb_prop.
  - by rewrite (js_le_mono _ _ _ Htu Hle).
  - rewrite Hu. apply orb_true_r.
Qed.

End sweep.

(** ** The two operations, entry by entry *)

Section operations.

Implicit Types (store : gmap Z entry) (c k : Z) (e : entry).

Lemma issue_result t0 t1 c d store :
  (issue t0 t1 c d store).1 =
  match purgeExpired t0 store !! c with
  | Some e => live t1 e
  | None => false
  end.
Proof. reflexivity. Qed.

Lemma issue_lookup_self t0 t1 c d store :
  (issue t0 t1 c d store).2 !! c =
  Some {| expiresAt := js_add (Fin t1) (cappedDuration d); used := false |}.
Proof. unfold issue; simpl. apply lookup_insert_eq. Qed.

Lemma issue_lookup_other t0 t1 c d store k :
  k <> c -> (issue t0 t1 c d store).2 !! k = purgeExpired t0 store !! k.
Proof. intros Hne. unfold issue; simpl. by rewrite lookup_insert_ne. Qed.

Lemma useOnce_result t0 t1 t2 c store :
  (useOnce t0 t1 t2 c store).1 =
  match purgeExpired t0 store !! c with
  | Some e => negb (stale t1 e)
  | None => false
  end.
Proof.
  unfold useOnce, stale.
  destruct (purgeExpired t0 store !! c) as [e|]; [| done].
  by destruct (js_le (expiresAt e) (Fin t1) || used e).
Qed.

(** Whatever it returns, [useOnce(c)] leaves no entry for [c]. *)
Lemma useOnce_lookup_self t0 t1 t2 c store :
  (useOnce t0 t1 t2 c store).2 !! c = None.
Proof.
  unfold useOnce.
  destruct (purgeExpired t0 store !! c) as [e|] eqn:He; [| done].
  destruct (js_le (expiresAt e) (Fin t1) || used e); simpl.
  - apply lookup_delete_eq.
  - apply purgeExpired_None. intros e'. rewrite lookup_insert_eq.
    intros Heq; inversion Heq; subst. unfold stale; simpl. apply orb_true_r.
Qed.

Lemma useOnce_lookup_other t0 t1 t2 c store k :
  k <> c ->
  (useOnce t0 t1 t2 c store).2 !! k =
  if (useOnce t0 t1 t2 c store).1
  then purgeExpired t2 (purgeExpired t0 store) !! k
  else purgeExpired t0 store !! k.
Proof.
  intros Hne. unfold useOnce.
  destruct (purgeExpired t0 store !! c) as [e|] eqn:He; [| done].
  destruct (js_le (expiresAt e) (Fin t1) || used e); simpl.
  - by rewrite lookup_delete_ne.
  - apply option_eq; intros e'.
    rewrite (purgeExpired_Some t2 (<[c:=_]> _)), lookup_insert_ne by done.
    by rewrite (purgeExpired_Some t2 (purgeExpired t0 store)).
Qed.

(** Neither operation creates an entry for a passcode other than its own. *)
Lemma exec_lookup_other_None r ts store k :
  (forall d, r <> Issue k d) -> store !! k = None ->
  (exec r ts store).2 !! k = None.
Proof.
  intros Hr Hk. destruct r as [c d | c]; unfold exec.
  - assert (k <> c) by (intros ->; by apply (Hr d)).
    rewrite issue_lookup_other by done. by apply purgeExpired_absent.
  - destruct (decide (k = c)) as [-> | Hne].
    + apply useOnce_lookup_self.
    + rewrite useOnce_lookup_other by done.
      destruct (useOnce _ _ _ _ _).1; by repeat apply purgeExpired_absent.
Qed.

Lemma store_ok_purgeExpired now store :
  store_ok store -> store_ok (purgeExpired now store).
Proof. intros Hok k e [He _]%purgeExpired_Some. by apply (Hok k). Qed.

Lemma store_ok_empty : store_ok ∅.
Proof. apply map_Forall_empty. Qed.

(** [store_ok] is an invariant of the program. *)
Lemma store_ok_exec r ts store :
  store_ok store -> store_ok (exec r ts store).2.
Proof.
  intros Hok k e. destruct r as [c d | c]; unfold exec.
  - destruct (decide (k = c)) as [-> | Hne].
    + rewrite issue_lookup_self. intros Heq; inversion Heq; subst; simpl.
      apply issued_expiry_not_NaN.
    + rewrite issue_lookup_other by done.
      by apply store_ok_purgeExpired.
  - destruct (decide (k = c)) as [-> | Hne].
    + by rewrite useOnce_lookup_self.
    + rewrite useOnce_lookup_other by done.
      destruct (useOnce _ _ _ _ _).1; by repeat apply store_ok_purgeExpired.
Qed.

Lemma reachable_store_ok store : reachable store -> store_ok store.
Proof.
  induction 1 as [| r ts store _ IH]; [apply store_ok_empty |].
  by apply store_ok_exec.
Qed.

Lemma run_with_cons step r ts rest store :
  run_with step ((r, ts) :: rest) store =
  ((step r ts store).1 :: (run_with step rest (step r ts store).2).1,
   (run_with step rest (step r ts store).2).2).
Proof.
  simpl. destruct (step r ts store) as [b s1]; simpl.
  by destruct (run_with step rest s1).
Qed.

End operations.

(** ** The eviction sweep (claim C7) *)

Section sweep_claims.

Implicit Types (store : gmap Z entry) (visits : list (Z * entry)).

(** On a store without [NaN] expiry times, the entries the test of the sweep
    spares are the live ones. *)
Lemma filter_not_stale_live now store :
  store_ok store ->
  filter (fun kv : Z * entry => stale now kv.2 = false) store =
  filter (fun kv : Z * entry => live now kv.2 = true) store.
Proof.
  intros Hok. apply map_filter_strong_ext. intros k e; simpl. split.
  - intros [Hst He]. split; [| done]. apply live_not_stale; [| done].
    by apply (Hok k).
  - intros [Hl He]. split; [| done]. by apply stale_live.
Qed.

(** C7. The eviction sweep is order-independent and idempotent: at a fixed
    current time [now], visiting the entries of the store in any order
    [visits] (any permutation of its entries) leaves exactly the entries whose
    [expiresAt] is strictly greater than [now] and whose consumed flag is
    false; [purgeExpired] is that filter too, and running it twice in a row at
    the same time gives the same store as running it once. *)
Theorem purgeExpired_order_independent_idempotent now store visits :
  store_ok store ->
  visits ≡ₚ map_to_list store ->
  purge_visit now visits store =
    filter (fun kv : Z * entry =>
              js_gt (expiresAt kv.2) (Fin now) = true /\ used kv.2 = false)
           store
  /\ purgeExpired now store = purge_visit now visits store
  /\ purgeExpired now (purgeExpired now store) = purgeExpired now store.
Proof.
  intros Hok Hperm.
  assert (Hflt :
    filter (fun kv : Z * entry => live now kv.2 = true) store =
    filter (fun kv : Z * entry =>
              js_gt (expiresAt kv.2) (Fin now) = true /\ used kv.2 = false)
           store).
  { apply map_filter_strong_ext. intros k e; simpl. unfold live.
    rewrite andb_true_iff, negb_true_iff. tauto. }
  assert (Hvis :
    purge_visit now visits store =
    filter (fun kv : Z * entry => stale now kv.2 = false) store).
  { by apply purge_visit_filter, visits_of_Permutation. }
  split; [| split].
  - by rewrite Hvis, filter_not_stale_live, Hflt.
  - by rewrite Hvis, purgeExpired_filter.
  - apply purgeExpired_idem.
Qed.

Lemma sample_store_ok : store_ok sample_store.
Proof.
  unfold sample_store.
  repeat (apply map_Forall_insert_2; [done |]). apply map_Forall_empty.
Qed.

Lemma purgeExpired_order_independent_idempotent_witness :
  purge_visit 10 sample_visits sample_store =
    filter (fun kv : Z * entry =>
              js_gt (expiresAt kv.2) (Fin 10) = true /\ used kv.2 = false)
           sample_store
  /\ purgeExpired 10 sample_store = purge_visit 10 sample_visits sample_store
  /\ purgeExpired 10 (purgeExpired 10 sample_store) = purgeExpired 10 sample_store.
Proof.
  apply purgeExpired_order_independent_idempotent.
  - apply sample_store_ok.
  - vm_compute. apply perm_skip, perm_swap.
Defined.

End sweep_claims.

(** ** No consumed entry at rest (claim C10) *)

Section at_rest.

Implicit Types (store : gmap Z entry) (c k : Z) (e : entry).

(** The sweep leaves no consumed entry, whatever the store it starts from. *)
Lemma purgeExpired_unused now store k e :
  purgeExpired now store !! k = Some e -> used e = false.
Proof.
  intros [_ Hst]%purgeExpired_Some. unfold stale in Hst.
  by apply orb_false_elim in Hst as [_ Hu].
Qed.

(** Nor does a public operation. *)
Lemma exec_unused r ts store k e :
  (exec r ts store).2 !! k = Some e -> used e = false.
Proof.
  destruct r as [c d | c]; unfold exec.
  - destruct (decide (k = c)) as [-> | Hne].
    + rewrite issue_lookup_self. by intros [= <-].
    + rewrite issue_lookup_other by done. apply purgeExpired_unused.
  - destruct (decide (k = c)) as [-> | Hne].
    + by rewrite useOnce_lookup_self.
    + rewrite useOnce_lookup_other by done.
      destruct (useOnce _ _ _ _ _).1; apply purgeExpired_unused.
Qed.

(** C10. No consumed entry at rest: in every store the program can be in
    between two calls (the new store, and the store any [issue] or [useOnce]
    leaves), no entry has its [used] flag set; the entry [useOnce] finds after
    its initial sweep is unconsumed too, so the [entry.used] disjunct of its
    rejection test is false there, and when the call sees one clock reading
    [now] the whole rejection test is false: a found entry is accepted. *)
Theorem no_consumed_entry_at_rest store :
  reachable store ->
  (forall k e, store !! k = Some e -> used e = false)
  /\ (forall t_sweep c e,
        purgeExpired t_sweep store !! c = Some e -> used e = false)
  /\ (forall now c e,
        purgeExpired now store !! c = Some e ->
        js_le (expiresAt e) (Fin now) || used e = false
        /\ (useOnce now now now c store).1 = true).
Proof.
  intros Hreach. split; [| split].
  - destruct Hreach as [| r ts store0 _]; intros k e.
    + by rewrite lookup_empty.
    + apply exec_unused.
  - intros t c e. apply purgeExpired_unused.
  - intros now c e He. pose proof He as [_ Hst]%purgeExpired_Some.
    split; [exact Hst |]. rewrite useOnce_result, He. by rewrite Hst.
Qed.

Lemma no_consumed_entry_at_rest_witness :
  reachable issued_store
  /\ issued_store !! 1 = Some (Entry (Fin 50) false)
  /\ purgeExpired 20 issued_store !! 1 = Some (Entry (Fin 50) false)
  /\ used (Entry (Fin 50) false) = false
  /\ js_le (Fin 50) (Fin 20) || false = false
  /\ (useOnce 20 20 20 1 issued_store).1 = true.
Proof.
  assert (Hreach : reachable issued_store).
  { exact (reach_call (Issue 1 (JNum (Fin 40))) (fixed_clock 10) _
             (reach_call (Issue 2 (JNum (Fin (-5)))) (fixed_clock 10) _
                reach_new)). }
  destruct (no_consumed_entry_at_rest issued_store Hreach) as (H1 & H2 & H3).
  assert (Hfound : purgeExpired 20 issued_store !! 1 = Some (Entry (Fin 50) false))
    by reflexivity.
  split; [exact Hreach |]. split; [reflexivity |]. split; [exact Hfound |].
  split; [exact (H2 20 1 _ Hfound) |]. exact (H3 20 1 _ Hfound).
Defined.

End at_rest.

(** ** What [useOnce] and [issue] return (claims C3 and C2) *)

Section results.

Implicit Types (store : gmap Z entry) (c k : Z) (e : entry).

(** The first sweep keeps the entry of [c] when it is live at a later time. *)
Lemma purgeExpired_keeps_live t0 t1 store c e :
  t0 <= t1 -> store !! c = Some e -> live t1 e = true ->
  purgeExpired t0 store !! c = Some e.
Proof.
  intros Ht He Hl. apply purgeExpired_Some. split; [done |].
  apply stale_live. by apply (live_mono t0 t1).
Qed.

(** C3. [useOnce] accepts exactly the live codes: on a store without [NaN]
    expiry times and with a clock that does not run backwards between the
    sweep ([t0]) and the call's own reading ([t1]), [useOnce(c)] returns
    [true] if and only if the store holds an entry for [c] that is live at
    [t1] (expiresAt strictly greater than [t1], not consumed).  A code without
    entry, an expired code and a consumed code all get the same [false], and
    so does any code on the empty store. *)
Theorem useOnce_true_iff_live t0 t1 t2 c store :
  store_ok store ->
  t0 <= t1 ->
  ((useOnce t0 t1 t2 c store).1 = true <->
   exists e, store !! c = Some e /\ live t1 e = true)
  /\ (store !! c = None -> (useOnce t0 t1 t2 c store).1 = false)
  /\ (forall e, store !! c = Some e ->
                js_gt (expiresAt e) (Fin t1) = false ->
                (useOnce t0 t1 t2 c store).1 = false)
  /\ (forall e, store !! c = Some e -> used e = true ->
                (useOnce t0 t1 t2 c store).1 = false)
  /\ (useOnce t0 t1 t2 c ∅).1 = false.
Proof.
  intros Hok Ht.
  assert (Hiff : (useOnce t0 t1 t2 c store).1 = true <->
                 exists e, store !! c = Some e /\ live t1 e = true).
  { rewrite useOnce_result. split.
    - destruct (purgeExpired t0 store !! c) as [e|] eqn:He; [| done].
      apply purgeExpired_Some in He as [He _]. intros Hst%negb_true_iff.
      exists e. split; [done |]. apply live_not_stale; [| done].
      by apply (Hok c).
    - intros (e & He & Hl).
      rewrite (purgeExpired_keeps_live t0 t1 store c e Ht He Hl).
      by rewrite (stale_live _ _ Hl). }
  assert (Hnot : forall e, store !! c = Some e -> live t1 e = false ->
                           (useOnce t0 t1 t2 c store).1 = false).
  { intros e He Hl. apply not_true_is_false. rewrite Hiff.
    intros (e' & He' & Hl'). congruence. }
  split; [exact Hiff |]. split; [| split; [| split]].
  - intros Hn. apply not_true_is_false. rewrite Hiff.
    intros (e & He & _). congruence.
  - intros e He Hgt. apply (Hnot e He). unfold live. by rewrite Hgt.
  - intros e He Hu. apply (Hnot e He). unfold live. rewrite Hu.
    apply andb_false_r.
  - rewrite useOnce_result. by rewrite purgeExpired_absent.
Qed.

Lemma useOnce_true_iff_live_witness :
  store_ok sample_store
  /\ (useOnce 10 11 12 1 sample_store).1 = true
  /\ (useOnce 10 11 12 2 sample_store).1 = false
  /\ (useOnce 10 11 12 3 sample_store).1 = false
  /\ (useOnce 10 11 12 4 sample_store).1 = false
  /\ (useOnce 10 11 12 4 ∅).1 = false.
Proof.
  assert (Hclock : 10 <= 11) by lia.
  pose proof (useOnce_true_iff_live 10 11 12 1 sample_store
                sample_store_ok Hclock) as (Hlive & _).
  pose proof (useOnce_true_iff_live 10 11 12 2 sample_store
                sample_store_ok Hclock) as (_ & _ & Hexpired & _).
  pose proof (useOnce_true_iff_live 10 11 12 3 sample_store
                sample_store_ok Hclock) as (_ & _ & _ & Hconsumed & _).
  pose proof (useOnce_true_iff_live 10 11 12 4 sample_store
                sample_store_ok Hclock) as (_ & Hunknown & _ & _ & Hempty).
  split; [apply sample_store_ok |].
  split.
  { apply Hlive. exists (Entry (Fin 50) false). split; reflexivity. }
  split.
  { apply (Hexpired (Entry (Fin 5) false)); reflexivity. }
  split.
  { apply (Hconsumed (Entry (Fin 50) true)); reflexivity. }
  split.
  { apply Hunknown. reflexivity. }
  exact Hempty.
Defined.

(** C2 (amended). What [issue] returns: with a clock that does not run
    backwards between the sweep ([t0]) and the call's own reading ([t1]),
    [issue(c, d)] returns [true] if and only if [Number(d)] does not throw
    and the store held an entry for [c] live at [t1] (expiresAt strictly
    greater than [t1], not consumed).  In particular, for a duration that
    [Number] converts, it returns [false] when the entry of [c] was consumed
    and when [c] has no entry.  It then writes an unconsumed entry whose
    expiry time is [t1 + Math.min(Number(d) || 0, MAX_MS)] as the code
    computes it: never later than [t1 + MAX_MS], and [t1 + min(d, MAX_MS)]
    for a whole number [d >= 0] of milliseconds.  A following [useOnce(c)]
    that reads the clock, in its sweep and in its own check, strictly before
    that expiry time, and not merely within [d] of the issue, returns
    [true]. *)
Theorem issue_returns_existed t0 t1 c d store :
  t0 <= t1 ->
  (forall a,
      (issue_call t0 t1 c a store).1 = Some true <->
      (exists v, a = Converts v)
      /\ exists e, store !! c = Some e /\ live t1 e = true)
  /\ ((issue t0 t1 c d store).1 = true <->
      exists e, store !! c = Some e /\ live t1 e = true)
  /\ (store !! c = None -> (issue t0 t1 c d store).1 = false)
  /\ (forall e, store !! c = Some e -> used e = true ->
                (issue t0 t1 c d store).1 = false)
  /\ (exists e,
        (issue t0 t1 c d store).2 !! c = Some e
        /\ used e = false
        /\ expiresAt e = js_add (Fin t1) (cappedDuration d)
        /\ js_le (expiresAt e) (Fin (t1 + MAX_MS)) = true
        /\ (forall w, Number d = Fin w -> 0 <= w ->
                      expiresAt e = Fin (t1 + Z.min w MAX_MS))
        /\ (forall u0 u1 u2,
              js_gt (expiresAt e) (Fin u0) = true ->
              js_gt (expiresAt e) (Fin u1) = true ->
              (useOnce u0 u1 u2 c (issue t0 t1 c d store).2).1 = true)).
Proof.
  intros Ht.
  assert (Hiff : forall v, (issue t0 t1 c v store).1 = true <->
                           exists e, store !! c = Some e /\ live t1 e = true).
  { intros v. rewrite issue_result. split.
    - destruct (purgeExpired t0 store !! c) as [e|] eqn:He; [| done].
      apply purgeExpired_Some in He as [He _]. intros Hl. by exists e.
    - intros (e & He & Hl).
      by rewrite (purgeExpired_keeps_live t0 t1 store c e Ht He Hl). }
  split; [| split; [exact (Hiff d) | split; [| split]]].
  - intros [v |]; unfold issue_call.
    + rewrite (surjective_pairing (issue t0 t1 c v store)); cbn [fst].
      split.
      * intros [= Hb]. split; [by exists v | by apply (Hiff v)].
      * intros [_ Hl]. f_equal. by apply (Hiff v).
    + cbn [fst]. split; [done |]. by intros [[v [=]] _].
  - intros Hn. apply not_true_is_false. rewrite (Hiff d).
    intros (e & He & _). congruence.
  - intros e He Hu. apply not_true_is_false. rewrite (Hiff d).
    intros (e' & He' & Hl). assert (e' = e) as -> by congruence.
    unfold live in Hl. rewrite Hu in Hl. by rewrite andb_false_r in Hl.
  - exists {| expiresAt := js_add (Fin t1) (cappedDuration d); used := false |}.
    cbn [expiresAt used].
    split; [apply issue_lookup_self |]. split; [done |]. split; [done |].
    split; [| split].
    + destruct (cappedDuration_cases d) as [-> | (w & -> & Hw)]; simpl;
        [done |]. apply Z.leb_le. lia.
    + intros w Hw Hpos. unfold cappedDuration, js_or. rewrite Hw. simpl.
      destruct (Z.eqb_spec w 0) as [-> | Hne]; simpl.
      * f_equal; unfold MAX_MS; lia.
      * destruct (Z.leb_spec w MAX_MS); simpl; f_equal; lia.
    + intros u0 u1 u2 Hgt0 Hgt1. rewrite useOnce_result.
      remember {| expiresAt := js_add (Fin t1) (cappedDuration d);
                  used := false |} as e eqn:Heqe.
      assert (Hl : forall u, js_gt (js_add (Fin t1) (cappedDuration d)) (Fin u)
                             = true -> stale u e = false).
      { intros u Hgt. apply stale_live. unfold live.
        rewrite Heqe; cbn [expiresAt used]. by rewrite Hgt. }
      assert (Hin : purgeExpired u0 (issue t0 t1 c d store).2 !! c = Some e).
      { apply purgeExpired_Some. split; [| by apply Hl].
        rewrite Heqe. apply issue_lookup_self. }
      rewrite Hin. by rewrite (Hl u1 Hgt1).
Qed.

Lemma issue_returns_existed_witness :
  10 <= 11
  /\ sample_store !! 3 = Some (Entry (Fin 50) true)
  /\ (issue 10 11 3 (JNum (Fin 600000)) sample_store).1 = false
  /\ (issue 10 11 1 (JNum (Fin 600000)) sample_store).1 = true
  /\ (issue_call 10 11 1 Throws sample_store).1 <> Some true
  /\ (useOnce 300009 300010 300011 3
        (issue 10 11 3 (JNum (Fin 600000)) sample_store).2).1 = true.
Proof.
  assert (Hclock : 10 <= 11) by lia.
  pose proof (issue_returns_existed 10 11 3 (JNum (Fin 600000)) sample_store
                Hclock) as (_ & _ & _ & Hconsumed & e & He & _ & _ & _ & Hw & Hrefresh).
  pose proof (issue_returns_existed 10 11 1 (JNum (Fin 600000)) sample_store
                Hclock) as (Hcall & Hlive & _).
  split; [exact Hclock |]. split; [reflexivity |].
  split.
  { apply (Hconsumed (Entry (Fin 50) true)); reflexivity. }
  split.
  { apply Hlive. exists (Entry (Fin 50) false). split; reflexivity. }
  split.
  { intros Hret. apply (Hcall Throws) in Hret as [[v Hv] _]. discriminate Hv. }
  apply Hrefresh; rewrite (Hw 600000); reflexivity || lia.
Defined.

(** C2 as stated fails in two ways.  On the new store, [issue(7, 30000)] and
    [useOnce(7)] consume the code; [issue(7, 600000)] at time 10 then returns
    [false], and a [useOnce(7)] 400000 ms later is within [d] and is
    rejected, the entry having expired at the 5-minute cap.  And with a live
    entry for the code in the store, an [issue] whose duration makes [Number]
    throw returns nothing. *)
Lemma issue_refresh_within_requested_counterexample :
  (run [(Issue 7 (JNum (Fin 30000)), fixed_clock 0);
        (UseOnce 7, fixed_clock 1);
        (Issue 7 (JNum (Fin 600000)), fixed_clock 10);
        (UseOnce 7, fixed_clock 400010)] ∅).1
  = [false; true; false; false]
  /\ 400010 < 10 + 600000
  /\ (issue 0 0 7 (JNum (Fin 30000)) ∅).2 !! 7 = Some (Entry (Fin 30000) false)
  /\ live 1 (Entry (Fin 30000) false) = true
  /\ (issue_call 1 1 7 Throws (issue 0 0 7 (JNum (Fin 30000)) ∅).2).1 = None.
Proof. repeat split; try reflexivity. Qed.

End results.

(** ** The effective duration (claims C4 and C6) *)

Section durations.

Implicit Types (store : gmap Z entry) (c k : Z) (e : entry) (d : jsval).

Lemma cappedDuration_le_cap d : js_le (cappedDuration d) (Fin MAX_MS) = true.
Proof.
  destruct (cappedDuration_cases d) as [-> | (w & -> & Hw)]; simpl; [done |].
  by apply Z.leb_le.
Qed.

Lemma cappedDuration_NaN d : Number d = NaN -> cappedDuration d = Fin 0.
Proof. unfold cappedDuration, js_or. by intros ->. Qed.

Lemma cappedDuration_nonneg d :
  js_le (Fin 0) (Number d) = true ->
  exists w, cappedDuration d = Fin w /\ 0 <= w <= MAX_MS.
Proof.
  unfold cappedDuration, js_or.
  destruct (Number d) as [| | |z]; simpl; try done.
  - intros _. exists MAX_MS. split; [done | unfold MAX_MS; lia].
  - intros Hz%Z.leb_le. destruct (z =? 0) eqn:Hz0; simpl.
    + exists 0. split; [done | unfold MAX_MS; lia].
    + destruct (z <=? MAX_MS) eqn:Hle.
      * exists z. apply Z.leb_le in Hle. split; [done | lia].
      * exists MAX_MS. split; [done | unfold MAX_MS; lia].
Qed.

Lemma cappedDuration_negative d :
  js_gt (Fin 0) (Number d) = true -> cappedDuration d = Number d.
Proof.
  unfold cappedDuration, js_or.
  destruct (Number d) as [| | |z]; simpl; try done.
  intros Hz%Z.ltb_lt.
  destruct (z =? 0) eqn:Hz0; [apply Z.eqb_eq in Hz0; lia |]. simpl.
  destruct (z <=? MAX_MS) eqn:Hle; [done |].
  apply Z.leb_gt in Hle. unfold MAX_MS in Hle. lia.
Qed.

(** C4 (amended). The duration [issue] uses is capped from above only.  For
    every duration that [Number] converts, the effective duration
    [Math.min(Number(d) || 0, MAX_MS)] is never more than [MAX_MS].  It is 0
    when [Number(d)] is [NaN] (a missing or undefined duration, [NaN] itself)
    or zero ([0], [null], [false]), while [true] counts as 1 ms.  When
    [Number(d)] is [NaN] or zero or more, the effective duration lies in
    [[0, MAX_MS]] and the expiry time written is at least the current time.
    A negative duration is not raised to 0: it is used as it is, the expiry
    time written is at most the current time, and the entry is expired as
    soon as it is written.  A duration on which [Number] throws makes [issue]
    stop after its sweep: nothing is written and nothing returned. *)
Theorem cappedDuration_capped_above t0 t1 c d store :
  js_le (cappedDuration d) (Fin MAX_MS) = true
  /\ (issue t0 t1 c d store).2 !! c =
       Some {| expiresAt := js_add (Fin t1) (cappedDuration d); used := false |}
  /\ (Number d = NaN \/ Number d = Fin 0 -> cappedDuration d = Fin 0)
  /\ (cappedDuration JUndefined = Fin 0 /\ cappedDuration (JNum NaN) = Fin 0
      /\ cappedDuration JNull = Fin 0 /\ cappedDuration (JBool false) = Fin 0
      /\ cappedDuration (JBool true) = Fin 1)
  /\ (Number d = NaN \/ js_le (Fin 0) (Number d) = true ->
      in_cap_range (cappedDuration d) = true
      /\ js_le (Fin t1) (js_add (Fin t1) (cappedDuration d)) = true)
  /\ (js_gt (Fin 0) (Number d) = true ->
      cappedDuration d = Number d
      /\ in_cap_range (cappedDuration d) = false
      /\ js_le (js_add (Fin t1) (cappedDuration d)) (Fin t1) = true
      /\ stale t1 {| expiresAt := js_add (Fin t1) (cappedDuration d);
                     used := false |} = true)
  /\ issue_call t0 t1 c Throws store = (None, purgeExpired t0 store).
Proof.
  split; [apply cappedDuration_le_cap |].
  split; [apply issue_lookup_self |].
  split.
  { intros [Hn | Hz]; [by apply cappedDuration_NaN |].
    unfold cappedDuration, js_or. by rewrite Hz. }
  split; [done |]. split; [| split; [| done]].
  - intros Hd.
    assert (exists w, cappedDuration d = Fin w /\ 0 <= w <= MAX_MS)
      as (w & -> & Hw).
    { destruct Hd as [Hn | Hpos]; [| by apply cappedDuration_nonneg].
      exists 0. split; [by apply cappedDuration_NaN | unfold MAX_MS; lia]. }
    unfold in_cap_range; simpl. split.
    + apply andb_true_iff. split; apply Z.leb_le; lia.
    + apply Z.leb_le. lia.
  - intros Hneg. rewrite (cappedDuration_negative d Hneg).
    assert (Hle : js_le (js_add (Fin t1) (Number d)) (Fin t1) = true).
    { destruct (Number d) as [| | |z]; simpl in *; try done.
      apply Z.ltb_lt in Hneg. apply Z.leb_le. lia. }
    split; [done |]. split; [| split; [exact Hle |]].
    + unfold in_cap_range.
      destruct (Number d) as [| | |z]; simpl in *; try done.
      apply Z.ltb_lt in Hneg.
      apply andb_false_iff. left. apply Z.leb_gt. lia.
    + unfold stale; cbn [expiresAt used]. by rewrite Hle.
Qed.

Lemma cappedDuration_capped_above_witness :
  cappedDuration JUndefined = Fin 0
  /\ in_cap_range (cappedDuration (JNum (Fin 600000))) = true
  /\ js_le (Fin 1000) (js_add (Fin 1000) (cappedDuration (JNum (Fin 600000))))
     = true
  /\ cappedDuration (JNum (Fin (-5))) = Fin (-5)
  /\ js_le (js_add (Fin 1000) (cappedDuration (JNum (Fin (-5))))) (Fin 1000)
     = true.
Proof.
  pose proof (cappedDuration_capped_above 1000 1000 1 JUndefined ∅)
    as (_ & _ & Hnan & _).
  pose proof (cappedDuration_capped_above 1000 1000 1 (JNum (Fin 600000)) ∅)
    as (_ & _ & _ & _ & Hpos & _).
  pose proof (cappedDuration_capped_above 1000 1000 1 (JNum (Fin (-5))) ∅)
    as (_ & _ & _ & _ & _ & Hneg & _).
  split; [apply Hnan; by left |].
  destruct Hpos as [Hrange Hexp]; [by right |].
  destruct Hneg as (Hsame & _ & Hpast & _); [done |].
  split; [exact Hrange |]. split; [exact Hexp |].
  split; [exact Hsame | exact Hpast].
Defined.

(** C4 as stated fails on a negative duration: [issue(1, -5)] at time 1000,
    on the new store, uses the duration -5, outside [[0, MAX_MS]], and writes
    the expiry time 995, which is below the current time.  Nor is every
    non-numeric duration treated as 0: [true] counts as 1 ms. *)
Lemma cappedDuration_negative_counterexample :
  cappedDuration (JNum (Fin (-5))) = Fin (-5)
  /\ in_cap_range (cappedDuration (JNum (Fin (-5)))) = false
  /\ (issue 1000 1000 1 (JNum (Fin (-5))) ∅).2 !! 1
     = Some (Entry (Fin 995) false)
  /\ js_le (Fin 1000) (Fin 995) = false
  /\ cappedDuration (JBool true) = Fin 1
  /\ (issue 1000 1000 1 (JBool true) ∅).2 !! 1
     = Some (Entry (Fin 1001) false).
Proof. repeat split; reflexivity. Qed.

(** C6. The five-minute cap: [MAX_MS] is 300000 ms; whatever duration is
    asked for, the expiry time [issue] writes is at most the current time plus
    300000; a [useOnce] of the code that reads the clock once those 300000 ms
    have elapsed (in its sweep or in its own check) returns [false], so that
    after [issue(c, 10*60*1000)] a [useOnce(c)] made after five minutes and
    before ten is rejected; and the boolean [issue] returns does not depend on
    the duration, so the capping does not show in it. *)
Theorem five_minute_cap t0 t1 c d store :
  MAX_MS = 300000
  /\ (exists e, (issue t0 t1 c d store).2 !! c = Some e
                /\ js_le (expiresAt e) (Fin (t1 + 300000)) = true)
  /\ (forall u0 u1 u2,
        t1 + 300000 <= u0 \/ t1 + 300000 <= u1 ->
        (useOnce u0 u1 u2 c (issue t0 t1 c d store).2).1 = false)
  /\ (forall u0 u1 u2,
        t1 + 5 * 60 * 1000 <= u0 -> u0 <= u1 -> u1 < t1 + 10 * 60 * 1000 ->
        (useOnce u0 u1 u2 c
           (issue t0 t1 c (JNum (Fin (10 * 60 * 1000))) store).2).1 = false)
  /\ (forall d', (issue t0 t1 c d' store).1 = (issue t0 t1 c d store).1).
Proof.
  set (e := {| expiresAt := js_add (Fin t1) (cappedDuration d);
               used := false |}).
  assert (Hexp : forall d0,
             js_le (js_add (Fin t1) (cappedDuration d0)) (Fin (t1 + 300000))
             = true).
  { intros d0.
    destruct (cappedDuration_cases d0) as [-> | (w & -> & Hw)]; simpl;
      [done |]. apply Z.leb_le. unfold MAX_MS in Hw. lia. }
  assert (Hlate : forall d0 u0 u1 u2,
             t1 + 300000 <= u0 \/ t1 + 300000 <= u1 ->
             (useOnce u0 u1 u2 c (issue t0 t1 c d0 store).2).1 = false).
  { intros d0 u0 u1 u2 Hu. rewrite useOnce_result.
    remember {| expiresAt := js_add (Fin t1) (cappedDuration d0);
                used := false |} as e0 eqn:He0.
    assert (Hst : forall u, t1 + 300000 <= u -> stale u e0 = true).
    { intros u Hle. unfold stale. rewrite He0; cbn [expiresAt used].
      by rewrite (js_le_mono _ (t1 + 300000) u Hle (Hexp d0)). }
    destruct (purgeExpired u0 _ !! c) as [e'|] eqn:He'; [| done].
    apply purgeExpired_Some in He' as [He' Hfresh].
    rewrite issue_lookup_self, <- He0 in He'. injection He' as <-.
    destruct Hu as [Hu | Hu].
    - rewrite (Hst u0 Hu) in Hfresh. done.
    - by rewrite (Hst u1 Hu). }
  split; [reflexivity |]. split; [| split; [| split]].
  - exists e. split; [apply issue_lookup_self | apply Hexp].
  - apply Hlate.
  - intros u0 u1 u2 Hu0 _ _. apply Hlate. left. lia.
  - intros d'. by rewrite !issue_result.
Qed.

Lemma five_minute_cap_witness :
  1000 + 300000 <= 401000
  /\ 401000 < 1000 + 600000
  /\ (issue 1000 1000 999888 (JNum (Fin 600000)) ∅).1 = false
  /\ (useOnce 401000 401000 401000 999888
        (issue 1000 1000 999888 (JNum (Fin 600000)) ∅).2).1 = false.
Proof.
  pose proof (five_minute_cap 1000 1000 999888 (JNum (Fin 600000)) ∅)
    as (_ & _ & Hlate & _ & _).
  split; [lia |]. split; [lia |]. split; [reflexivity |].
  apply Hlate. left. lia.
Defined.

End durations.

(** ** What the operations leave in the store (claims C5 and C8) *)

Section frames.

Implicit Types (store : gmap Z entry) (c k : Z) (e : entry) (r : request).

(** An entry of another passcode is, after the call, what the sweeps of the
    call made of it. *)
Lemma exec_lookup_other r ts store k :
  k <> code_of r ->
  (exec r ts store).2 !! k = purgeExpired (at_sweep ts) store !! k
  \/ (exec r ts store).2 !! k =
     purgeExpired (at_resweep ts) (purgeExpired (at_sweep ts) store) !! k.
Proof.
  intros Hne. destruct r as [c d | c]; unfold exec; simpl in Hne.
  - left. by apply issue_lookup_other.
  - rewrite useOnce_lookup_other by done.
    destruct (useOnce _ _ _ _ _).1; [by right | by left].
Qed.

(** C5 (amended). With one clock reading [now] per call and a store without
    [NaN] expiry times: the store an operation works on after its initial
    sweep holds only live entries; every entry left by an operation is
    unconsumed; every entry left by [useOnce] is live at [now]; after
    [issue(c, d)] every entry but the one of [c] is live at [now], and the
    entry of [c] is live exactly when the expiry time written for it is
    strictly greater than [now], which for a whole number [d] of
    milliseconds means [d >= 1], and is never so when [Number(d)] is [NaN].
    An entry written already expired is in the store when [issue] returns
    and stays there until the next sweep, which removes it if it reads [now]
    or a later time; no [useOnce] reading the clock at [now] or later
    accepts it. *)
Theorem store_live_after_operation r now store :
  store_ok store ->
  (forall k e, purgeExpired now store !! k = Some e -> live now e = true)
  /\ (forall k e,
        (exec r (fixed_clock now) store).2 !! k = Some e ->
        used e = false
        /\ (live now e = true
            \/ exists d,
                r = Issue k d
                /\ e = {| expiresAt := js_add (Fin now) (cappedDuration d);
                          used := false |}
                /\ js_gt (expiresAt e) (Fin now) = false))
  /\ (forall c d,
        r = Issue c d ->
        let e := {| expiresAt := js_add (Fin now) (cappedDuration d);
                    used := false |} in
        let after := (exec r (fixed_clock now) store).2 in
        after !! c = Some e
        /\ (forall w, Number d = Fin w -> (live now e = true <-> 1 <= w))
        /\ (Number d = NaN -> live now e = false)
        /\ (live now e = false ->
            forall u0 u1 u2,
              (now <= u0 -> purgeExpired u0 after !! c = None)
              /\ (now <= u0 \/ now <= u1 ->
                  (useOnce u0 u1 u2 c after).1 = false))).
Proof.
  intros Hok.
  assert (Hswept : forall k e, purgeExpired now store !! k = Some e ->
                               live now e = true).
  { intros k e [He Hst]%purgeExpired_Some.
    apply live_not_stale; [by apply (Hok k) | done]. }
  split; [exact Hswept |]. split.
  - intros k e He.
    split; [by apply (exec_unused r (fixed_clock now) store k) |].
    destruct (decide (k = code_of r)) as [-> | Hne].
    + destruct r as [c d | c]; unfold exec in He;
        cbn [code_of fixed_clock at_sweep at_now at_resweep] in He.
      * rewrite issue_lookup_self in He. injection He as <-.
        cbn [expiresAt].
        destruct (js_gt (js_add (Fin now) (cappedDuration d)) (Fin now))
          eqn:Hgt.
        -- left. unfold live. simpl in Hgt |- *. by rewrite Hgt.
        -- right. by exists d.
      * by rewrite useOnce_lookup_self in He.
    + left.
      destruct (exec_lookup_other r (fixed_clock now) store k Hne)
        as [Heq | Heq];
        rewrite Heq in He; cbn [fixed_clock at_sweep at_resweep] in He.
      * by apply (Hswept k).
      * apply purgeExpired_Some in He as [He _]. by apply (Hswept k).
  - intros c d ->. cbn zeta. unfold exec.
    cbn [fixed_clock at_sweep at_now at_resweep].
    remember {| expiresAt := js_add (Fin now) (cappedDuration d);
                used := false |} as e eqn:Heqe.
    assert (Hin : (issue now now c d store).2 !! c = Some e)
      by (rewrite Heqe; apply issue_lookup_self).
    split; [exact Hin |]. split; [| split].
    + intros w Hw. unfold live. rewrite Heqe; cbn [expiresAt used].
      rewrite andb_true_r. unfold cappedDuration, js_or. rewrite Hw. simpl.
      destruct (Z.eqb_spec w 0) as [-> | Hne]; simpl.
      * rewrite Z.ltb_lt. lia.
      * destruct (Z.leb_spec w MAX_MS); simpl; rewrite Z.ltb_lt;
          unfold MAX_MS in *; lia.
    + intros Hn. unfold live. rewrite Heqe; cbn [expiresAt used].
      rewrite (cappedDuration_NaN d Hn). simpl.
      by rewrite (proj2 (Z.ltb_ge now (now + 0))) by lia.
    + intros Hdead u0 u1 u2.
      assert (Hst : forall u, now <= u -> stale u e = true).
      { intros u Hu. apply (stale_mono now u e Hu).
        destruct (stale now e) eqn:Hs; [done |].
        rewrite live_not_stale in Hdead; [done | | done].
        rewrite Heqe; cbn [expiresAt]. apply issued_expiry_not_NaN. }
      split.
      * intros Hu. apply purgeExpired_None. intros e' He'.
        assert (e' = e) as -> by congruence. by apply Hst.
      * intros Hu. rewrite useOnce_result.
        destruct (purgeExpired u0 _ !! c) as [e'|] eqn:He'; [| done].
        apply purgeExpired_Some in He' as [He' Hfresh].
        assert (e' = e) as -> by congruence.
        destruct Hu as [Hu | Hu].
        -- by rewrite (Hst u0 Hu) in Hfresh.
        -- by rewrite (Hst u1 Hu).
Qed.

Lemma store_live_after_operation_witness :
  store_ok sample_store
  /\ purgeExpired 10 sample_store !! 1 = Some (Entry (Fin 50) false)
  /\ live 10 (Entry (Fin 50) false) = true
  /\ (exec (Issue 4 (JNum (Fin 30))) (fixed_clock 10) sample_store).2 !! 4
     = Some (Entry (Fin 40) false)
  /\ live 10 (Entry (Fin 40) false) = true
  /\ (exec (Issue 4 (JNum (Fin 0))) (fixed_clock 10) sample_store).2 !! 4
     = Some (Entry (Fin 10) false)
  /\ purgeExpired 10
       (exec (Issue 4 (JNum (Fin 0))) (fixed_clock 10) sample_store).2 !! 4
     = None.
Proof.
  pose proof (store_live_after_operation (Issue 4 (JNum (Fin 30))) 10
                sample_store sample_store_ok) as (Hswept & _ & Hpos).
  pose proof (store_live_after_operation (Issue 4 (JNum (Fin 0))) 10
                sample_store sample_store_ok) as (_ & _ & Hzero).
  destruct (Hpos 4 (JNum (Fin 30)) eq_refl) as (Hin & Hw & _).
  destruct (Hzero 4 (JNum (Fin 0)) eq_refl) as (Hin0 & Hw0 & _ & Hstays).
  assert (H1 : purgeExpired 10 sample_store !! 1 = Some (Entry (Fin 50) false))
    by reflexivity.
  split; [apply sample_store_ok |]. split; [exact H1 |].
  split; [exact (Hswept 1 _ H1) |]. split; [exact Hin |].
  split; [apply (Hw 30); [reflexivity | lia] |].
  split; [exact Hin0 |].
  apply (Hstays eq_refl 10 10 10). lia.
Defined.

(** C5 as stated fails after an [issue] with a duration of 0 (or less, or
    missing): the entry it writes expires at the very time of the call and
    stays in the store, [issue] having no trailing sweep. *)
Lemma issue_leaves_expired_entry_counterexample :
  store_ok ∅
  /\ (exec (Issue 1 (JNum (Fin 0))) (fixed_clock 1000) ∅).2 !! 1
     = Some (Entry (Fin 1000) false)
  /\ js_gt (expiresAt (Entry (Fin 1000) false)) (Fin 1000) = false
  /\ live 1000 (Entry (Fin 1000) false) = false.
Proof. split; [apply store_ok_empty |]. repeat split; reflexivity. Qed.

(** C8. Frame property: a call about passcode [code_of r] leaves the entry of
    any other passcode [k] either untouched or removed.  It is untouched when
    it is live at the clock readings of the sweeps of the call (at the one
    time of the call, when the clock stands still).  When it is removed, the
    test of one of the sweeps held on it: it was expired or consumed. *)
Theorem frame_other_codes r ts store k e :
  k <> code_of r ->
  store !! k = Some e ->
  (live (at_sweep ts) e = true -> live (at_resweep ts) e = true ->
   (exec r ts store).2 !! k = Some e)
  /\ (forall now, ts = fixed_clock now -> live now e = true ->
                  (exec r ts store).2 !! k = Some e)
  /\ ((exec r ts store).2 !! k = Some e
      \/ ((exec r ts store).2 !! k = None
          /\ (stale (at_sweep ts) e = true \/ stale (at_resweep ts) e = true))).
Proof.
  intros Hne He.
  assert (Hlive : live (at_sweep ts) e = true -> live (at_resweep ts) e = true ->
                  (exec r ts store).2 !! k = Some e).
  { intros H0 H2.
    assert (purgeExpired (at_sweep ts) store !! k = Some e) as Hk.
    { apply purgeExpired_Some. split; [done | by apply stale_live]. }
    destruct (exec_lookup_other r ts store k Hne) as [-> | ->]; [done |].
    apply purgeExpired_Some. split; [done | by apply stale_live]. }
  split; [exact Hlive |]. split.
  - intros now -> Hl. by apply Hlive.
  - destruct (stale (at_sweep ts) e) eqn:H0.
    + right. split; [| by left].
      destruct (exec_lookup_other r ts store k Hne) as [-> | ->].
      * apply purgeExpired_None. intros e' He'. congruence.
      * apply purgeExpired_absent, purgeExpired_None. intros e' He'. congruence.
    + assert (purgeExpired (at_sweep ts) store !! k = Some e) as Hk.
      { by apply purgeExpired_Some. }
      destruct (exec_lookup_other r ts store k Hne) as [-> | ->]; [by left |].
      destruct (stale (at_resweep ts) e) eqn:H2.
      * right. split; [| by right].
        apply purgeExpired_None. intros e' He'. congruence.
      * left. by apply purgeExpired_Some.
Qed.

Lemma frame_other_codes_witness :
  1 <> code_of (UseOnce 4)
  /\ sample_store !! 1 = Some (Entry (Fin 50) false)
  /\ live 10 (Entry (Fin 50) false) = true
  /\ (exec (UseOnce 4) (fixed_clock 10) sample_store).2 !! 1
     = Some (Entry (Fin 50) false).
Proof.
  assert (Hne : 1 <> code_of (UseOnce 4)) by (simpl; lia).
  assert (He : sample_store !! 1 = Some (Entry (Fin 50) false)) by reflexivity.
  pose proof (frame_other_codes (UseOnce 4) (fixed_clock 10) sample_store 1 _
                Hne He) as (_ & Hfixed & _).
  split; [exact Hne |]. split; [exact He |]. split; [reflexivity |].
  by apply (Hfixed 10).
Defined.

End frames.

(** ** The two versions of the store (claim C9) *)

Section versions.

Implicit Types (store : gmap Z entry) (c k : Z) (e : entry) (r : request).

Lemma Compact_useOnce_eq t0 t1 t2 c store :
  Compact.useOnce t0 t1 t2 c store = useOnce t0 t1 t2 c store.
Proof. reflexivity. Qed.

(** The stores the two versions of [issue] leave are the same, whatever the
    clock does. *)
Lemma Compact_issue_store t0 t1 c d store :
  (Compact.issue t0 t1 c d store).2 = (issue t0 t1 c d store).2.
Proof. reflexivity. Qed.

(** Their results agree when the sweep and the check read the same time. *)
Lemma Compact_issue_result now c d store :
  store_ok store ->
  (Compact.issue now now c d store).1 = (issue now now c d store).1.
Proof.
  intros Hok. rewrite issue_result. unfold Compact.issue; simpl.
  rewrite Compact_purgeExpired_eq.
  destruct (purgeExpired now store !! c) as [e|] eqn:He; [| done].
  apply purgeExpired_Some in He as [He Hst]. symmetry.
  apply live_not_stale; [by apply (Hok c) | done].
Qed.

Lemma exec_compact_fixed r now store :
  store_ok store ->
  exec_compact r (fixed_clock now) store = exec r (fixed_clock now) store.
Proof.
  intros Hok. destruct r as [c d | c]; simpl.
  - apply injective_projections.
    + by apply Compact_issue_result.
    + apply Compact_issue_store.
  - apply Compact_useOnce_eq.
Qed.

(** C9. The documented version and the compact version of the store are
    observably equivalent when each call sees one current time: started on
    the same store without [NaN] expiry times (the new, empty store is one),
    any sequence of [issue] and [useOnce] calls returns the same booleans and
    leaves the same store in both versions. *)
Theorem compact_version_equivalent (calls : list (request * Z)) store :
  store_ok store ->
  run_compact (stamped calls) store = run (stamped calls) store.
Proof.
  revert store. induction calls as [|[r now] calls IH]; intros store Hok;
    [done |].
  unfold run_compact, run, stamped in *. cbn [map fst snd].
  rewrite !run_with_cons, exec_compact_fixed by done.
  rewrite IH; [done |]. by apply store_ok_exec.
Qed.

Lemma compact_version_equivalent_witness :
  store_ok ∅
  /\ run_compact
       (stamped [(Issue 123456 (JNum (Fin 600000)), 1000);
                 (Issue 123456 (JNum (Fin 30000)), 1001);
                 (UseOnce 123456, 1002); (UseOnce 123456, 1003)]) ∅
     = run
         (stamped [(Issue 123456 (JNum (Fin 600000)), 1000);
                   (Issue 123456 (JNum (Fin 30000)), 1001);
                   (UseOnce 123456, 1002); (UseOnce 123456, 1003)]) ∅
  /\ (run
        (stamped [(Issue 123456 (JNum (Fin 600000)), 1000);
                  (Issue 123456 (JNum (Fin 30000)), 1001);
                  (UseOnce 123456, 1002); (UseOnce 123456, 1003)]) ∅).1
     = [false; true; true; false].
Proof.
  split; [apply store_ok_empty |]. split.
  - apply compact_version_equivalent, store_ok_empty.
  - reflexivity.
Defined.

(** The restriction to one time per call matters: when the clock advances
    between the sweep of [issue] and its own reading, an entry that expires in
    between is reported by the compact version and not by the documented one. *)
Lemma versions_differ_when_clock_advances :
  (issue 10 60 1 (JNum (Fin 30)) sample_store).1 = false
  /\ (Compact.issue 10 60 1 (JNum (Fin 30)) sample_store).1 = true.
Proof. split; reflexivity. Qed.

End versions.

(** ** At-most-once redemption (claim C1) *)

Section redemption.

Implicit Types (store : gmap Z entry) (c k : Z) (e : entry) (r : request).

Lemma accepts_cons c r ts rest store :
  accepts c ((r, ts) :: rest) store =
  ((if accepted c ((r, ts), (exec r ts store).1) then 1 else 0)
   + accepts c rest (exec r ts store).2)%nat.
Proof.
  unfold accepts, run. rewrite run_with_cons. cbn [fst zip zip_with].
  destruct (accepted c (r, ts, (exec r ts store).1)) eqn:Hacc.
  - by rewrite filter_cons_True.
  - rewrite filter_cons_False; [done |]. by rewrite Hacc.
Qed.

(** Without an entry for [c], and as long as [c] is not issued again, no
    [useOnce(c)] is accepted. *)
Lemma accepts_absent c calls store :
  Forall (fun call => issues c call = false) calls ->
  store !! c = None ->
  accepts c calls store = 0%nat.
Proof.
  revert store. induction calls as [|[r ts] calls IH]; intros store Hno Hc;
    [done |].
  apply Forall_cons in Hno as [Hr Hno]. rewrite accepts_cons.
  assert (Hr' : forall d, r <> Issue c d).
  { intros d ->. unfold issues in Hr; simpl in Hr.
    by rewrite bool_decide_eq_true_2 in Hr. }
  rewrite (IH _ Hno) by (by apply exec_lookup_other_None).
  unfold accepted; cbn [fst snd]. destruct r as [p d | p]; [done |].
  destruct (decide (p = c)) as [-> | Hne].
  - unfold exec. rewrite useOnce_result, purgeExpired_absent by done.
    by rewrite andb_false_r.
  - by rewrite bool_decide_eq_false_2.
Qed.

(** C1. At-most-once redemption: from any store, in any sequence of calls
    that does not issue [c] again (calls about other codes, and [useOnce(c)]
    itself, may come in any number and at any clock readings), at most one
    [useOnce(c)] returns [true]; and after a [useOnce(c)], in particular one
    that returned [true], no later [useOnce(c)] of such a sequence returns
    [true]. *)
Theorem useOnce_at_most_once c calls store :
  Forall (fun call => issues c call = false) calls ->
  (accepts c calls store <= 1)%nat
  /\ (forall ts,
        accepts c calls
          (useOnce (at_sweep ts) (at_now ts) (at_resweep ts) c store).2
        = 0%nat).
Proof.
  intros Hno. split.
  - revert store Hno.
    induction calls as [|[r ts] calls IH]; intros store Hno;
      [unfold accepts; simpl; lia |].
    apply Forall_cons in Hno as [Hr Hno]. rewrite accepts_cons.
    destruct (accepted c (r, ts, (exec r ts store).1)) eqn:Hacc.
    + unfold accepted in Hacc; cbn [fst snd] in Hacc.
      destruct r as [p d | p]; [done |].
      apply andb_prop in Hacc as [Hp%bool_decide_eq_true _]. subst p.
      rewrite accepts_absent; [lia | done |]. apply useOnce_lookup_self.
    + specialize (IH (exec r ts store).2 Hno). lia.
  - intros ts. apply accepts_absent; [done |]. apply useOnce_lookup_self.
Qed.

Lemma useOnce_at_most_once_witness :
  Forall (fun call => issues 1 call = false)
         [(UseOnce 1, fixed_clock 11); (Issue 4 (JNum (Fin 30)), fixed_clock 12);
          (UseOnce 1, fixed_clock 13); (UseOnce 1, fixed_clock 14)]
  /\ (run [(UseOnce 1, fixed_clock 11); (Issue 4 (JNum (Fin 30)), fixed_clock 12);
           (UseOnce 1, fixed_clock 13); (UseOnce 1, fixed_clock 14)]
          sample_store).1 = [true; false; false; false]
  /\ (accepts 1
        [(UseOnce 1, fixed_clock 11); (Issue 4 (JNum (Fin 30)), fixed_clock 12);
         (UseOnce 1, fixed_clock 13); (UseOnce 1, fixed_clock 14)]
        sample_store <= 1)%nat.
Proof.
  assert (Hno : Forall (fun call => issues 1 call = false)
                  [(UseOnce 1, fixed_clock 11);
                   (Issue 4 (JNum (Fin 30)), fixed_clock 12);
                   (UseOnce 1, fixed_clock 13); (UseOnce 1, fixed_clock 14)]).
  { repeat constructor. }
  split; [exact Hno |]. split; [reflexivity |].
  exact (proj1 (useOnce_at_most_once 1 _ sample_store Hno)).
Defined.

End redemption.

(** ** How sweeps and operations compose *)

Section composition.

Implicit Types (store : gmap Z entry) (c k : Z) (e : entry) (r : request).

Lemma fresh_mono t u e : t <= u -> stale u e = false -> stale t e = false.
Proof.
  intros Htu Hu. destruct (stale t e) eqn:Ht; [| done].
  by rewrite (stale_mono t u e Htu Ht) in Hu.
Qed.

Lemma purgeExpired_compose t u store :
  t <= u -> purgeExpired u (purgeExpired t store) = purgeExpired u store.
Proof.
  intros Htu. apply map_eq; intros k. apply option_eq; intros e.
  rewrite !purgeExpired_Some. split; [tauto |].
  intros [He Hu]. repeat split; try done. by apply (fresh_mono t u).
Qed.

Lemma purgeExpired_comm t u store :
  purgeExpired t (purgeExpired u store) = purgeExpired u (purgeExpired t store).
Proof.
  apply map_eq; intros k. apply option_eq; intros e.
  rewrite !purgeExpired_Some. tauto.
Qed.

Lemma purgeExpired_subseteq now store : purgeExpired now store ⊆ store.
Proof. rewrite purgeExpired_filter. apply map_filter_subseteq. Qed.

(** Sweeping a store into which an entry has just been put. *)
Lemma purgeExpired_insert now store k e :
  purgeExpired now (<[k := e]> store) =
  if stale now e then delete k (purgeExpired now store)
  else <[k := e]> (purgeExpired now store).
Proof.
  apply map_eq; intros j. apply option_eq; intros e'.
  rewrite purgeExpired_Some.
  destruct (decide (j = k)) as [-> | Hne].
  - rewrite lookup_insert_eq. destruct (stale now e) eqn:Hst.
    + rewrite lookup_delete_eq. split; [| done].
      intros [[= <-] Hf]. congruence.
    + rewrite lookup_insert_eq. split; [tauto |].
      intros [= <-]. done.
  - rewrite lookup_insert_ne by done.
    destruct (stale now e).
    + rewrite lookup_delete_ne by done. by rewrite purgeExpired_Some.
    + rewrite lookup_insert_ne by done. by rewrite purgeExpired_Some.
Qed.

Lemma purgeExpired_delete now store k :
  purgeExpired now (delete k store) = delete k (purgeExpired now store).
Proof.
  apply map_eq; intros j. apply option_eq; intros e'.
  rewrite purgeExpired_Some.
  destruct (decide (j = k)) as [-> | Hne].
  - rewrite !lookup_delete_eq. split; [tauto | done].
  - rewrite !lookup_delete_ne by done. by rewrite purgeExpired_Some.
Qed.

(** X1. Sweeps compose: a sweep at a later time makes an earlier one
    superfluous, whichever of the two runs first; the sweep only ever removes
    entries, and what it keeps it keeps unchanged. *)
Theorem purgeExpired_later_sweep_subsumes t u store :
  t <= u ->
  purgeExpired u (purgeExpired t store) = purgeExpired u store
  /\ purgeExpired t (purgeExpired u store) = purgeExpired u store
  /\ purgeExpired u store ⊆ purgeExpired t store
  /\ purgeExpired t store ⊆ store.
Proof.
  intros Htu. split; [by apply purgeExpired_compose |].
  split; [by rewrite purgeExpired_comm, purgeExpired_compose |].
  split; [| apply purgeExpired_subseteq].
  rewrite <- (purgeExpired_compose t u store Htu). apply purgeExpired_subseteq.
Qed.

Lemma purgeExpired_later_sweep_subsumes_witness :
  10 <= 60
  /\ purgeExpired 60 (purgeExpired 10 sample_store) = ∅
  /\ purgeExpired 60 sample_store = ∅
  /\ purgeExpired 10 (purgeExpired 60 sample_store) = purgeExpired 60 sample_store.
Proof.
  assert (Hclock : 10 <= 60) by lia.
  pose proof (purgeExpired_later_sweep_subsumes 10 60 sample_store Hclock)
    as (H1 & H2 & _).
  assert (Hempty : purgeExpired 60 sample_store = ∅) by (by vm_compute).
  split; [exact Hclock |]. split; [by rewrite H1 |].
  split; [exact Hempty | exact H2].
Defined.

Lemma useOnce_store_eq t0 t1 t2 c store :
  t0 <= t2 ->
  (useOnce t0 t1 t2 c store).2 =
  delete c (purgeExpired
              (if (useOnce t0 t1 t2 c store).1 then t2 else t0) store).
Proof.
  intros Ht. apply map_eq; intros k.
  destruct (decide (k = c)) as [-> | Hne].
  - by rewrite useOnce_lookup_self, lookup_delete_eq.
  - rewrite useOnce_lookup_other, lookup_delete_ne by done.
    destruct (useOnce t0 t1 t2 c store).1; [| done].
    by rewrite purgeExpired_compose.
Qed.

(** X2. The store [useOnce] leaves: with a clock that does not run backwards
    between the two sweeps, [useOnce(c)] leaves the swept store without the
    entry of [c], whether it accepts the code or not; the sweep that counts is
    the trailing one when the code is accepted and the initial one otherwise.
    When the call sees a single time, that is [delete c (purgeExpired now
    store)] in both cases. *)
Theorem useOnce_leaves_swept_store_without_code t0 t1 t2 c store :
  t0 <= t2 ->
  (useOnce t0 t1 t2 c store).2 =
    delete c (purgeExpired
                (if (useOnce t0 t1 t2 c store).1 then t2 else t0) store)
  /\ (useOnce t2 t2 t2 c store).2 = delete c (purgeExpired t2 store).
Proof.
  intros Ht. split; [by apply useOnce_store_eq |].
  rewrite useOnce_store_eq by lia.
  by destruct (useOnce t2 t2 t2 c store).1.
Qed.

Lemma useOnce_leaves_swept_store_without_code_witness :
  10 <= 12
  /\ (useOnce 10 11 12 1 sample_store).1 = true
  /\ (useOnce 10 11 12 1 sample_store).2 = delete 1 (purgeExpired 12 sample_store)
  /\ (useOnce 10 11 12 1 sample_store).2 = ∅.
Proof.
  assert (Hclock : 10 <= 12) by lia.
  pose proof (useOnce_leaves_swept_store_without_code 10 11 12 1 sample_store
                Hclock) as [H _].
  split; [exact Hclock |]. split; [reflexivity |].
  split; [exact H | by vm_compute].
Defined.

(** X3. Neither operation adds or alters an entry of another code: what
    [useOnce(c)] leaves is part of the store it found, without [c]; what
    [issue(c, d)] leaves is, apart from the entry of [c] it writes, part of
    the store it found; so [useOnce] never makes the store larger and [issue]
    makes it larger by one entry at most. *)
Theorem operations_only_shrink_other_codes t0 t1 t2 c d store :
  (useOnce t0 t1 t2 c store).2 ⊆ delete c store
  /\ delete c (issue t0 t1 c d store).2 ⊆ delete c store
  /\ (size (useOnce t0 t1 t2 c store).2 <= size store)%nat
  /\ (size (issue t0 t1 c d store).2 <= S (size store))%nat.
Proof.
  assert (Huse : (useOnce t0 t1 t2 c store).2 ⊆ delete c store).
  { apply map_subseteq_spec. intros k e He.
    destruct (decide (k = c)) as [-> | Hne].
    - by rewrite useOnce_lookup_self in He.
    - rewrite lookup_delete_ne by done.
      rewrite useOnce_lookup_other in He by done.
      destruct (useOnce t0 t1 t2 c store).1.
      + by apply purgeExpired_Some in He as [[He _]%purgeExpired_Some _].
      + by apply purgeExpired_Some in He as [He _]. }
  assert (Hissue : delete c (issue t0 t1 c d store).2 ⊆ delete c store).
  { unfold issue; cbn [snd]. rewrite delete_insert_eq.
    apply delete_mono, purgeExpired_subseteq. }
  split; [exact Huse |]. split; [exact Hissue |]. split.
  - etrans; [apply (map_subseteq_size _ _ Huse) |].
    apply map_subseteq_size, delete_subseteq.
  - unfold issue; cbn [snd].
    pose proof (map_subseteq_size _ _ (purgeExpired_subseteq t0 store)) as Hle.
    rewrite map_size_insert.
    destruct (purgeExpired t0 store !! c); simpl; lia.
Qed.

Lemma js_le_not_gt a b : js_le a b = true -> js_gt a b = false.
Proof.
  intros Hle. destruct (js_gt a b) eqn:Hgt; [| done].
  by rewrite (js_gt_not_le _ _ Hgt) in Hle.
Qed.

(** What a sweep at [u] makes of the entry [issue] has just written. *)
Lemma purgeExpired_issued u t0 t1 c d store :
  purgeExpired u (issue t0 t1 c d store).2 !! c =
  (let e := {| expiresAt := js_add (Fin t1) (cappedDuration d);
               used := false |} in
   if stale u e then None else Some e).
Proof.
  cbn zeta. apply option_eq; intros e'. rewrite purgeExpired_Some.
  rewrite issue_lookup_self.
  remember {| expiresAt := js_add (Fin t1) (cappedDuration d);
              used := false |} as e eqn:He.
  destruct (stale u e) eqn:Hst.
  - split; [| done]. intros [[= <-] Hf]. congruence.
  - split; [tauto |]. intros [= <-]. done.
Qed.

Lemma issue_then_issue_result t0 t1 u0 u1 c d1 d2 store :
  (issue u0 u1 c d2 (issue t0 t1 c d1 store).2).1 =
  js_gt (js_add (Fin t1) (cappedDuration d1)) (Fin u0)
  && js_gt (js_add (Fin t1) (cappedDuration d1)) (Fin u1).
Proof.
  rewrite issue_result, purgeExpired_issued. cbn zeta.
  destruct (cappedDuration_cases d1) as [-> | (w & -> & _)]; [done |].
  unfold stale, live; simpl.
  destruct (Z.leb_spec (t1 + w) u0) as [Hle | Hlt]; simpl.
  - by rewrite (proj2 (Z.ltb_ge u0 (t1 + w))).
  - rewrite (proj2 (Z.ltb_lt u0 (t1 + w))) by done. simpl.
    by rewrite andb_true_r.
Qed.

Lemma issue_then_useOnce_result t0 t1 u0 u1 u2 c d store :
  (useOnce u0 u1 u2 c (issue t0 t1 c d store).2).1 =
  js_gt (js_add (Fin t1) (cappedDuration d)) (Fin u0)
  && js_gt (js_add (Fin t1) (cappedDuration d)) (Fin u1).
Proof.
  rewrite useOnce_result, purgeExpired_issued. cbn zeta.
  destruct (cappedDuration_cases d) as [-> | (w & -> & _)]; [done |].
  unfold stale; simpl.
  destruct (Z.leb_spec (t1 + w) u0) as [Hle | Hlt]; simpl.
  - by rewrite (proj2 (Z.ltb_ge u0 (t1 + w))).
  - rewrite (proj2 (Z.ltb_lt u0 (t1 + w))) by done. simpl.
    rewrite orb_false_r.
    destruct (Z.leb_spec (t1 + w) u1) as [Hle1 | Hlt1]; simpl.
    + by rewrite (proj2 (Z.ltb_ge u1 (t1 + w))).
    + by rewrite (proj2 (Z.ltb_lt u1 (t1 + w))).
Qed.

Lemma issue_absent t0 t1 c d store :
  store !! c = None -> (issue t0 t1 c d store).1 = false.
Proof. intros Hc. by rewrite issue_result, purgeExpired_absent. Qed.

Lemma useOnce_absent t0 t1 t2 c store :
  store !! c = None -> (useOnce t0 t1 t2 c store).1 = false.
Proof. intros Hc. by rewrite useOnce_result, purgeExpired_absent. Qed.

Lemma issue_then_issue_store t0 t1 u0 u1 c d1 d2 store :
  t0 <= u0 ->
  (issue u0 u1 c d2 (issue t0 t1 c d1 store).2).2 = (issue u0 u1 c d2 store).2.
Proof.
  intros Ht. unfold issue; cbn [snd]. rewrite purgeExpired_insert.
  destruct (stale u0 _).
  - by rewrite insert_delete_eq, purgeExpired_compose.
  - by rewrite insert_insert_eq, purgeExpired_compose.
Qed.

(** X4. The last [issue] wins: with a clock that does not run backwards, a
    second [issue] of the same code leaves the store it would have left
    without the first one, so nothing of the earlier duration survives; and
    it returns [true] exactly when the entry written by the first [issue] is
    still unexpired at the time of the second. *)
Theorem reissue_overwrites t0 t1 u0 u1 c d1 d2 store :
  t0 <= u0 -> u0 <= u1 ->
  (issue u0 u1 c d2 (issue t0 t1 c d1 store).2).2 = (issue u0 u1 c d2 store).2
  /\ (issue u0 u1 c d2 (issue t0 t1 c d1 store).2).1 =
     js_gt (js_add (Fin t1) (cappedDuration d1)) (Fin u1).
Proof.
  intros Ht Hu. split; [by apply issue_then_issue_store |].
  rewrite issue_then_issue_result.
  destruct (js_gt _ (Fin u1)) eqn:Hgt.
  - by rewrite (js_gt_mono _ u0 u1 Hu Hgt).
  - apply andb_false_r.
Qed.

Lemma reissue_overwrites_witness :
  1000 <= 1001 /\ 1001 <= 1001
  /\ (issue 1001 1001 123456 (JNum (Fin 30000))
        (issue 1000 1000 123456 (JNum (Fin 600000)) ∅).2).1 = true
  /\ (issue 1001 1001 123456 (JNum (Fin 30000))
        (issue 1000 1000 123456 (JNum (Fin 600000)) ∅).2).2
     = {[ 123456 := Entry (Fin 31001) false ]}.
Proof.
  assert (H0 : 1000 <= 1001) by lia. assert (H1 : 1001 <= 1001) by lia.
  pose proof (reissue_overwrites 1000 1000 1001 1001 123456
                (JNum (Fin 600000)) (JNum (Fin 30000)) ∅ H0 H1) as [Hs Hr].
  split; [exact H0 |]. split; [exact H1 |].
  split; [by rewrite Hr |]. rewrite Hs. by vm_compute.
Defined.

(** Without a live chance for [c]: every entry the store may hold for [c] is
    stale at [t], and no call of the sequence issues [c] or reads a time
    before [t]. *)
Lemma accepts_stale t c calls store :
  (forall e, store !! c = Some e -> stale t e = true) ->
  Forall (fun call => issues c call = false /\ t <= at_now call.2) calls ->
  accepts c calls store = 0%nat.
Proof.
  revert store. induction calls as [|[r ts] calls IH]; intros store Hst Hno;
    [done |].
  apply Forall_cons in Hno as [[Hr Ht] Hno]. cbn [snd] in Ht.
  rewrite accepts_cons.
  assert (Hr' : forall d, r <> Issue c d).
  { intros d ->. unfold issues in Hr; simpl in Hr.
    by rewrite bool_decide_eq_true_2 in Hr. }
  rewrite (IH _) ; [| | done].
  - unfold accepted; cbn [fst snd]. destruct r as [p d | p]; [done |].
    destruct (decide (p = c)) as [-> | Hne];
      [| by rewrite bool_decide_eq_false_2].
    unfold exec. rewrite useOnce_result.
    destruct (purgeExpired _ store !! c) as [e|] eqn:He;
      [| by rewrite andb_false_r].
    apply purgeExpired_Some in He as [He _].
    rewrite (stale_mono t (at_now ts) e Ht (Hst e He)). by rewrite andb_false_r.
  - intros e He. apply Hst.
    destruct (decide (c = code_of r)) as [Heq | Hne].
    + destruct r as [p d | p]; simpl in Heq; subst p.
      * by destruct (Hr' d).
      * unfold exec in He. by rewrite useOnce_lookup_self in He.
    + destruct (exec_lookup_other r ts store c Hne) as [Hk | Hk];
        rewrite Hk in He.
      * by apply purgeExpired_Some in He as [He _].
      * by apply purgeExpired_Some in He as [[He _]%purgeExpired_Some _].
Qed.

(** X5. Inaccessible after expiration: once the entry of [c] is expired or
    consumed at some time [t], no [useOnce(c)] that reads the clock at [t] or
    later is accepted, however many calls about other codes come in between,
    until [c] is issued again. *)
Theorem expired_code_stays_rejected t c e calls store :
  store !! c = Some e ->
  stale t e = true ->
  Forall (fun call => issues c call = false /\ t <= at_now call.2) calls ->
  accepts c calls store = 0%nat.
Proof.
  intros He Hst Hno. apply (accepts_stale t); [| done].
  intros e' He'. congruence.
Qed.

Lemma expired_code_stays_rejected_witness :
  sample_store !! 2 = Some (Entry (Fin 5) false)
  /\ stale 5 (Entry (Fin 5) false) = true
  /\ accepts 2
       [(Issue 4 (JNum (Fin 30)), Readings 1 5 1); (UseOnce 2, Readings 1 5 1);
        (UseOnce 2, Readings 1 7 1)]
       sample_store = 0%nat.
Proof.
  assert (He : sample_store !! 2 = Some (Entry (Fin 5) false)) by reflexivity.
  assert (Hst : stale 5 (Entry (Fin 5) false) = true) by reflexivity.
  split; [exact He |]. split; [exact Hst |].
  apply (expired_code_stays_rejected 5 2 _ _ sample_store He Hst).
  repeat constructor; simpl; lia.
Defined.

(** X6. A code that was never issued is never accepted: on a new store, and
    more generally on any store without an entry for [c], a sequence of calls
    that does not issue [c] accepts no [useOnce(c)], whatever it does with
    other codes and whatever the clock reads; and the store still has no
    entry for [c] at the end. *)
Theorem never_issued_code_never_accepted c calls store :
  store !! c = None ->
  Forall (fun call => issues c call = false) calls ->
  accepts c calls store = 0%nat
  /\ accepts c calls ∅ = 0%nat
  /\ (run calls store).2 !! c = None.
Proof.
  intros Hc Hno. split; [by apply accepts_absent |].
  split; [by apply accepts_absent |].
  revert store Hc. induction calls as [|[r ts] calls IH]; intros store Hc;
    [done |].
  apply Forall_cons in Hno as [Hr Hno].
  unfold run. rewrite run_with_cons. cbn [snd]. apply (IH Hno).
  apply exec_lookup_other_None; [| done].
  intros d ->. unfold issues in Hr; simpl in Hr.
  by rewrite bool_decide_eq_true_2 in Hr.
Qed.

Lemma never_issued_code_never_accepted_witness :
  sample_store !! 999999 = None
  /\ accepts 999999
       [(Issue 4 (JNum (Fin 30)), fixed_clock 10); (UseOnce 999999, fixed_clock 11);
        (UseOnce 1, fixed_clock 12); (UseOnce 999999, fixed_clock 13)]
       sample_store = 0%nat.
Proof.
  assert (Hc : sample_store !! 999999 = None) by reflexivity.
  split; [exact Hc |].
  apply (never_issued_code_never_accepted 999999 _ sample_store Hc).
  repeat constructor.
Defined.

End composition.

(** ** When the self-test passes *)

Section self_test.

Implicit Types (store : gmap Z entry) (ts : readings).

Lemma Compact_issue_result_has t0 t1 c d store :
  (Compact.issue t0 t1 c d store).1 =
  match purgeExpired t0 store !! c with Some _ => true | None => false end.
Proof. reflexivity. Qed.

(** X7. The self-test depends on the clock and on nothing else: it passes if
    and only if the re-issue comes less than five minutes (the capped ten)
    after the first issue and the first [useOnce] less than 30 seconds after
    the re-issue, at each reading of the clock these calls take.  The compact
    version's self-test passes under the same conditions, except that its
    re-issue looks at the clock in its sweep only. *)
Theorem selfTest_passes_iff ts1 ts2 ts3 ts4 ts5 ts6 :
  (selfTest ts1 ts2 ts3 ts4 ts5 ts6 = true <->
   at_sweep ts2 < at_now ts1 + 300000 /\ at_now ts2 < at_now ts1 + 300000
   /\ at_sweep ts3 < at_now ts2 + 30000 /\ at_now ts3 < at_now ts2 + 30000)
  /\ (selfTest_compact ts1 ts2 ts3 ts4 = true <->
      at_sweep ts2 < at_now ts1 + 300000
      /\ at_sweep ts3 < at_now ts2 + 30000 /\ at_now ts3 < at_now ts2 + 30000).
Proof.
  destruct ts1 as [a0 a1 a2], ts2 as [b0 b1 b2], ts3 as [c0 c1 c2],
    ts4 as [d0 d1 d2], ts5 as [e0 e1 e2], ts6 as [f0 f1 f2].
  cbn [at_sweep at_now at_resweep].
  set (ten := JNum (Fin (10 * 60 * 1000))).
  set (half := JNum (Fin 30000)).
  set (s1 := (issue a0 a1 123456 ten ∅).2).
  set (s2 := (issue b0 b1 123456 half s1).2).
  set (s3 := (useOnce c0 c1 c2 123456 s2).2).
  set (s4 := (useOnce d0 d1 d2 123456 s3).2).
  set (s5 := (issue e0 e1 999888 ten s4).2).
  assert (H1 : (issue a0 a1 123456 ten ∅).1 = false) by (by apply issue_absent).
  assert (H2 : (issue b0 b1 123456 half s1).1
               = (b0 <? a1 + 300000) && (b1 <? a1 + 300000)).
  { unfold s1. by rewrite issue_then_issue_result. }
  assert (H3 : (useOnce c0 c1 c2 123456 s2).1
               = (c0 <? b1 + 30000) && (c1 <? b1 + 30000)).
  { unfold s2. by rewrite issue_then_useOnce_result. }
  assert (Hs3 : s3 !! 123456 = None) by apply useOnce_lookup_self.
  assert (H4 : (useOnce d0 d1 d2 123456 s3).1 = false)
    by (by apply useOnce_absent).
  assert (Hother : forall k, k <> 123456 -> s4 !! k = None).
  { intros k Hk. unfold s4, s3, s2, s1.
    apply (exec_lookup_other_None (UseOnce 123456) (Readings d0 d1 d2));
      [done |].
    apply (exec_lookup_other_None (UseOnce 123456) (Readings c0 c1 c2));
      [done |].
    apply (exec_lookup_other_None (Issue 123456 half) (Readings b0 b1 b2));
      [congruence |].
    apply (exec_lookup_other_None (Issue 123456 ten) (Readings a0 a1 a2));
      [congruence | done]. }
  assert (H5 : (issue e0 e1 999888 ten s4).1 = false).
  { apply issue_absent, Hother. lia. }
  assert (H6 : (useOnce f0 f1 f2 999999 s5).1 = false).
  { apply useOnce_absent. unfold s5.
    apply (exec_lookup_other_None (Issue 999888 ten) (Readings e0 e1 e2));
      [congruence |]. apply Hother. lia. }
  assert (Hdoc : selfTest (Readings a0 a1 a2) (Readings b0 b1 b2)
                   (Readings c0 c1 c2) (Readings d0 d1 d2)
                   (Readings e0 e1 e2) (Readings f0 f1 f2)
                 = (b0 <? a1 + 300000) && (b1 <? a1 + 300000)
                   && ((c0 <? b1 + 30000) && (c1 <? b1 + 30000))).
  { unfold selfTest. cbn [at_sweep at_now at_resweep]. fold ten half.
    rewrite (surjective_pairing (issue a0 a1 123456 ten ∅)). fold s1.
    rewrite (surjective_pairing (issue b0 b1 123456 half s1)). fold s2.
    rewrite (surjective_pairing (useOnce c0 c1 c2 123456 s2)). fold s3.
    rewrite (surjective_pairing (useOnce d0 d1 d2 123456 s3)). fold s4.
    rewrite (surjective_pairing (issue e0 e1 999888 ten s4)). fold s5.
    rewrite (surjective_pairing (useOnce f0 f1 f2 999999 s5)).
    rewrite H1, H2, H3, H4, H5, H6. cbn [forallb Bool.eqb].
    destruct ((b0 <? a1 + 300000) && (b1 <? a1 + 300000));
      destruct ((c0 <? b1 + 30000) && (c1 <? b1 + 30000)); reflexivity. }
  assert (Hcompact : selfTest_compact (Readings a0 a1 a2) (Readings b0 b1 b2)
                       (Readings c0 c1 c2) (Readings d0 d1 d2)
                     = (b0 <? a1 + 300000)
                       && ((c0 <? b1 + 30000) && (c1 <? b1 + 30000))).
  { unfold selfTest_compact. cbn [at_sweep at_now at_resweep]. fold ten half.
    rewrite (surjective_pairing (Compact.issue a0 a1 123456 ten ∅)).
    cbv beta iota. rewrite Compact_issue_store. fold s1.
    rewrite (surjective_pairing (Compact.issue b0 b1 123456 half s1)).
    cbv beta iota. rewrite Compact_issue_store. fold s2.
    rewrite Compact_useOnce_eq.
    rewrite (surjective_pairing (useOnce c0 c1 c2 123456 s2)).
    cbv beta iota. fold s3. rewrite Compact_useOnce_eq.
    rewrite (surjective_pairing (useOnce d0 d1 d2 123456 s3)).
    cbv beta iota. rewrite H3, H4.
    rewrite !Compact_issue_result_has.
    rewrite (purgeExpired_absent a0 ∅ 123456) by done.
    unfold s1 at 1. rewrite purgeExpired_issued. cbn zeta.
    unfold stale; simpl. change MAX_MS with 300000. rewrite orb_false_r.
    destruct (Z.leb_spec (a1 + 300000) b0) as [Hle | Hlt].
    - by rewrite (proj2 (Z.ltb_ge b0 (a1 + 300000))).
    - rewrite (proj2 (Z.ltb_lt b0 (a1 + 300000))) by done. simpl.
      by destruct ((c0 <? b1 + 30000) && (c1 <? b1 + 30000)). }
  rewrite Hdoc, Hcompact. rewrite !andb_true_iff, !Z.ltb_lt. tauto.
Qed.

End self_test.

(** ** The page script: formatting *)

Section formatting.

Local Open Scope string_scope.

Lemma is_digit_pretty_N_char x : is_digit (pretty_N_char x) = true.
Proof. unfold pretty_N_char. by repeat case_match. Qed.

Lemma digits_only_pretty_N_go x s :
  digits_only s = true -> digits_only (pretty_N_go x s) = true.
Proof.
  revert s. induction (N.lt_wf_0 x) as [x _ IH]; intros s Hs.
  assert (x = 0 \/ 0 < x)%N as [-> | Hx] by lia.
  - by rewrite pretty_N_go_0.
  - rewrite pretty_N_go_step by done. apply IH.
    + by apply N.div_lt.
    + cbn [digits_only]. by rewrite is_digit_pretty_N_char, Hs.
Qed.

Lemma digits_only_pretty (z : Z) :
  (0 <= z)%Z -> digits_only (pretty z) = true.
Proof.
  intros Hz. destruct z as [|p|p]; [done | | lia].
  unfold pretty, pretty_Z, pretty, pretty_positive, pretty, pretty_N.
  case_decide; [done |]. by apply digits_only_pretty_N_go.
Qed.

(** A run of digits followed by something that is no digit reads in one way
    only. *)
Lemma digits_prefix_unique d1 d2 c1 c2 t1 t2 :
  digits_only d1 = true -> digits_only d2 = true ->
  is_digit c1 = false -> is_digit c2 = false ->
  d1 +:+ String c1 t1 = d2 +:+ String c2 t2 ->
  d1 = d2 /\ String c1 t1 = String c2 t2.
Proof.
  intros H1 H2 Hc1 Hc2. revert d2 H2.
  induction d1 as [|x d1 IH]; intros [|y d2] H2 Heq; simpl in *.
  - done.
  - injection Heq as -> _. apply andb_prop in H2 as [H2 _]. congruence.
  - injection Heq as -> _. apply andb_prop in H1 as [H1 _]. congruence.
  - injection Heq as -> Heq.
    apply andb_prop in H1 as [_ H1]. apply andb_prop in H2 as [_ H2].
    destruct (IH H1 d2 H2 Heq) as [-> Ht]. done.
Qed.

(** The text [formatDuration] gives for a duration of [q] whole seconds. *)
Lemma formatDuration_text (z : Z) :
  (0 <= z)%Z ->
  formatDuration (Fin z) =
  (let q := (z / 1000)%Z in
   if (q / 60 =? 0)%Z then pretty (q mod 60)%Z +:+ "s"
   else if (q mod 60 =? 0)%Z then pretty (q / 60)%Z +:+ "m"
        else pretty (q / 60)%Z +:+ "m " +:+ pretty (q mod 60)%Z +:+ "s").
Proof.
  intros Hz. cbn zeta. unfold formatDuration. cbn [js_le].
  destruct (Z.leb_spec 60000 z) as [Hle | Hlt].
  - cbn [js_rem js_floor_div js_gt js_show].
    assert (Hm : (z / 60000 = z / 1000 / 60)%Z)
      by (Z.to_euclidean_division_equations; lia).
    assert (Hs : (Z.rem z 60000 / 1000 = (z / 1000) mod 60)%Z).
    { rewrite Z.rem_mod_nonneg by lia.
      Z.to_euclidean_division_equations; lia. }
    rewrite Hm, Hs.
    destruct (Z.eqb_spec (z / 1000 / 60) 0) as [H0 | H0];
      [Z.to_euclidean_division_equations; lia |].
    destruct (Z.eqb_spec ((z / 1000) mod 60) 0) as [Hs0 | Hs0].
    + rewrite Hs0. done.
    + rewrite (proj2 (Z.ltb_lt 0 ((z / 1000) mod 60))); [done |].
      Z.to_euclidean_division_equations; lia.
  - cbn [js_floor_div js_show].
    assert (Hq : (z / 1000 / 60 = 0)%Z)
      by (Z.to_euclidean_division_equations; lia).
    rewrite Hq. cbn [Z.eqb].
    assert (Hs : ((z / 1000) mod 60 = z / 1000)%Z)
      by (Z.to_euclidean_division_equations; lia).
    by rewrite Hs.
Qed.

Lemma formatDuration_text_inj (q1 q2 : Z) :
  (0 <= q1)%Z -> (0 <= q2)%Z ->
  (if (q1 / 60 =? 0)%Z then pretty (q1 mod 60)%Z +:+ "s"
   else if (q1 mod 60 =? 0)%Z then pretty (q1 / 60)%Z +:+ "m"
        else pretty (q1 / 60)%Z +:+ "m " +:+ pretty (q1 mod 60)%Z +:+ "s")
  = (if (q2 / 60 =? 0)%Z then pretty (q2 mod 60)%Z +:+ "s"
     else if (q2 mod 60 =? 0)%Z then pretty (q2 / 60)%Z +:+ "m"
          else pretty (q2 / 60)%Z +:+ "m " +:+ pretty (q2 mod 60)%Z +:+ "s") ->
  q1 = q2.
Proof.
  intros H1 H2.
  assert (Hd : forall q, (0 <= q)%Z ->
                         digits_only (pretty (q / 60)%Z) = true
                         /\ digits_only (pretty (q mod 60)%Z) = true).
  { intros q Hq. split; apply digits_only_pretty;
      Z.to_euclidean_division_equations; lia. }
  destruct (Hd q1 H1) as [Hm1 Hs1]. destruct (Hd q2 H2) as [Hm2 Hs2].
  assert (Hjoin : forall q m s, (0 <= q)%Z -> m = (q / 60)%Z ->
                                s = (q mod 60)%Z -> q = (60 * m + s)%Z).
  { intros q m s Hq -> ->. Z.to_euclidean_division_equations; lia. }
  destruct (Z.eqb_spec (q1 / 60) 0) as [Ha | Ha];
    destruct (Z.eqb_spec (q2 / 60) 0) as [Hb | Hb];
    try destruct (Z.eqb_spec (q1 mod 60) 0) as [Ha' | Ha'];
    try destruct (Z.eqb_spec (q2 mod 60) 0) as [Hb' | Hb'];
    intros Heq;
    try (apply digits_prefix_unique in Heq as [Hp Ht];
         [| done | done | done | done]);
    try discriminate Ht;
    try (apply (inj pretty) in Hp);
    try (injection Ht as Ht;
         apply digits_prefix_unique in Ht as [Hp' _]; [| done..];
         apply (inj pretty) in Hp');
    rewrite (Hjoin q1 _ _ H1 eq_refl eq_refl),
      (Hjoin q2 _ _ H2 eq_refl eq_refl); lia.
Qed.

(** Durations of zero or more milliseconds read alike exactly when they hold
    the same whole seconds. *)
Lemma formatDuration_same_text (a b : Z) :
  (0 <= a)%Z -> (0 <= b)%Z ->
  formatDuration (Fin a) = formatDuration (Fin b) <-> (a / 1000 = b / 1000)%Z.
Proof.
  intros Ha Hb. rewrite !formatDuration_text by done. cbn zeta. split.
  - intros Heq. apply formatDuration_text_inj; [| | done];
      Z.to_euclidean_division_equations; lia.
  - by intros ->.
Qed.

(** X8. [formatDuration] shows whole minutes and seconds, rounded down: for a
    whole number [z] of milliseconds from 0 to [MAX_SAFE_INTEGER] the text is
    made of [m] minutes and [s] seconds with [0 <= s < 60] and [60 m + s] the
    whole seconds in [z]; the minutes are left out when there are none, and
    the seconds when there are minutes and no seconds. *)
Theorem formatDuration_minutes_seconds (z : Z) :
  (0 <= z <= MAX_SAFE_INTEGER)%Z ->
  exists m s : Z,
    (0 <= m /\ 0 <= s < 60)%Z
    /\ (1000 * (60 * m + s) <= z < 1000 * (60 * m + s) + 1000)%Z
    /\ formatDuration (Fin z) =
       (if (m =? 0)%Z then pretty s +:+ "s"
        else if (s =? 0)%Z then pretty m +:+ "m"
             else pretty m +:+ "m " +:+ pretty s +:+ "s").
Proof.
  intros [Hz _]. exists (z / 1000 / 60)%Z, ((z / 1000) mod 60)%Z.
  split; [Z.to_euclidean_division_equations; lia |].
  split; [Z.to_euclidean_division_equations; lia |].
  by apply formatDuration_text.
Qed.

Lemma formatDuration_minutes_seconds_witness :
  (0 <= 90500 <= MAX_SAFE_INTEGER)%Z /\ formatDuration (Fin 90500) = "1m 30s"
  /\ exists m s : Z,
       (0 <= m /\ 0 <= s < 60)%Z
       /\ (1000 * (60 * m + s) <= 90500 < 1000 * (60 * m + s) + 1000)%Z
       /\ formatDuration (Fin 90500) =
          (if (m =? 0)%Z then pretty s +:+ "s"
           else if (s =? 0)%Z then pretty m +:+ "m"
                else pretty m +:+ "m " +:+ pretty s +:+ "s").
Proof.
  assert (H : (0 <= 90500 <= MAX_SAFE_INTEGER)%Z) by (unfold MAX_SAFE_INTEGER; lia).
  split; [exact H |]. split; [reflexivity |].
  exact (formatDuration_minutes_seconds 90500 H).
Defined.

(** X9. The text of [formatDuration] tells the whole seconds and nothing
    else: two whole numbers of milliseconds from 0 to [MAX_SAFE_INTEGER] are
    shown alike if and only if they hold the same number of whole seconds. *)
Theorem formatDuration_same_text_iff_same_seconds (a b : Z) :
  (0 <= a <= MAX_SAFE_INTEGER)%Z -> (0 <= b <= MAX_SAFE_INTEGER)%Z ->
  formatDuration (Fin a) = formatDuration (Fin b) <-> (a / 1000 = b / 1000)%Z.
Proof.
  intros [Ha _] [Hb _]. by apply formatDuration_same_text.
Qed.

Lemma formatDuration_same_text_iff_same_seconds_witness :
  (0 <= 90000 <= MAX_SAFE_INTEGER)%Z /\ (0 <= 90999 <= MAX_SAFE_INTEGER)%Z
  /\ formatDuration (Fin 90000) = formatDuration (Fin 90999)
  /\ formatDuration (Fin 90999) = "1m 30s".
Proof.
  assert (Ha : (0 <= 90000 <= MAX_SAFE_INTEGER)%Z)
    by (unfold MAX_SAFE_INTEGER; lia).
  assert (Hb : (0 <= 90999 <= MAX_SAFE_INTEGER)%Z)
    by (unfold MAX_SAFE_INTEGER; lia).
  split; [exact Ha |]. split; [exact Hb |]. split; [| reflexivity].
  by apply (formatDuration_same_text_iff_same_seconds 90000 90999 Ha Hb).
Defined.

(** X10. [formatTimeRemaining] reads [0s] exactly when less than a second is
    left: for every whole number of milliseconds, negative ones included. *)
Theorem formatTimeRemaining_zero_iff (z : Z) :
  formatTimeRemaining (Fin z) = "0s" <-> (z < 1000)%Z.
Proof.
  unfold formatTimeRemaining. cbn [js_le].
  destruct (Z.leb_spec z 0) as [Hle | Hlt]; [split; [lia | done] |].
  change "0s" with (formatDuration (Fin 0)).
  rewrite formatDuration_same_text by lia.
  Z.to_euclidean_division_equations; lia.
Qed.

End formatting.

(** ** The page script: status log and issue form *)

Section page_script.

Implicit Types (children : list status_item) (pg : page).

Lemma keep_last_five_drop children :
  keep_last_five children = drop (length children - 5) children.
Proof.
  induction children as [|x rest IH]; [done |].
  cbn [keep_last_five]. destruct (Nat.ltb_spec 5 (length (x :: rest))) as [H | H];
    cbn [length] in *.
  - rewrite IH. replace (S (length rest) - 5)%nat
      with (S (length rest - 5)) by lia. done.
  - by replace (S (length rest) - 5)%nat with 0%nat by lia.
Qed.

(** X11. The status log keeps the last five messages: after [updateStatus]
    the log has five lines at most, whatever it held before; it is the old
    log with the new line at its end, cut at the front to that length; so the
    new line is always the last one, and nothing is lost while fewer than
    five lines were there. *)
Theorem updateStatus_keeps_last_five message type time children :
  let statusItem :=
    StatusItem (status_style type).1 (status_style type).2 message time in
  let log := updateStatus message type time children in
  (length log <= 5)%nat
  /\ log = drop (length children + 1 - 5) (children ++ [statusItem])
  /\ last log = Some statusItem
  /\ ((length children < 5)%nat -> log = children ++ [statusItem]).
Proof.
  cbn zeta. unfold updateStatus.
  destruct (status_style type) as [icon textClass]; cbn [fst snd].
  set (statusItem := StatusItem icon textClass message time).
  rewrite keep_last_five_drop, length_app. cbn [length].
  split; [rewrite length_drop, length_app; cbn [length]; lia |].
  split; [done |]. split.
  - rewrite drop_app_le by lia. by rewrite last_snoc.
  - intros Hlt. by replace (length children + 1 - 5)%nat with 0%nat by lia.
Qed.

Lemma handleIssueOTP_passcode_guard passcode :
  negb (truthy passcode) || js_gt (Fin 100000) passcode
    || js_gt passcode (Fin 99999999) = false <->
  exists code, passcode = Fin code /\ 100000 <= code <= 99999999.
Proof.
  destruct passcode as [| | |z]; simpl.
  - split; [done | by intros (c & ? & _)].
  - split; [done | by intros (c & ? & _)].
  - split; [done | by intros (c & ? & _)].
  - split.
    + intros [[H0 H1]%orb_false_elim H2]%orb_false_elim.
      apply Z.ltb_ge in H1, H2. exists z. split; [done | lia].
    + intros (c & [= <-] & Hc). apply orb_false_intro; [apply orb_false_intro |].
      * apply negb_false_iff, negb_true_iff, Z.eqb_neq. lia.
      * apply Z.ltb_ge. lia.
      * apply Z.ltb_ge. lia.
Qed.

Lemma handleIssueOTP_duration_guard duration :
  negb (truthy duration) || js_gt (Fin 1000) duration
    || js_gt duration (Fin 300000) = false <->
  exists w, duration = Fin w /\ 1000 <= w <= 300000.
Proof.
  destruct duration as [| | |z]; simpl.
  - split; [done | by intros (c & ? & _)].
  - split; [done | by intros (c & ? & _)].
  - split; [done | by intros (c & ? & _)].
  - split.
    + intros [[H0 H1]%orb_false_elim H2]%orb_false_elim.
      apply Z.ltb_ge in H1, H2. exists z. split; [done | lia].
    + intros (c & [= <-] & Hc). apply orb_false_intro; [apply orb_false_intro |].
      * apply negb_false_iff, negb_true_iff, Z.eqb_neq. lia.
      * apply Z.ltb_ge. lia.
      * apply Z.ltb_ge. lia.
Qed.

(** Whether the input of the issue form is in range can be told. *)
Lemma classic_in_range passcode choice :
  let in_range :=
    exists code,
      passcode = Fin code /\ 100000 <= code <= 99999999
      /\ match choice with
         | CustomDuration duration =>
             exists w, duration = Fin w /\ 1000 <= w <= 300000
         | PresetDuration _ => True
         end in
  in_range \/ ~ in_range.
Proof.
  cbn zeta.
  destruct (negb (truthy passcode) || js_gt (Fin 100000) passcode
            || js_gt passcode (Fin 99999999)) eqn:Hp.
  { right. intros (code & Hc & Hr & _).
    rewrite (proj2 (handleIssueOTP_passcode_guard passcode)) in Hp;
      [done | by exists code]. }
  apply handleIssueOTP_passcode_guard in Hp as (code & -> & Hcode).
  destruct choice as [duration | duration]; [| left; by exists code].
  destruct (negb (truthy duration) || js_gt (Fin 1000) duration
            || js_gt duration (Fin 300000)) eqn:Hd.
  - right. intros (code' & _ & _ & w & Hw & Hr).
    rewrite (proj2 (handleIssueOTP_duration_guard duration)) in Hd;
      [done | by exists w].
  - apply handleIssueOTP_duration_guard in Hd. left. by exists code.
Qed.


End page_script.
